(** * Cat-in-forest canvas animation: a shallow embedding of [src/app/page.tsx]

    Numbers.  A JavaScript number is an IEEE double.  The 32-bit integer
    operators ([^], [|], [>>>], [Math.imul]) are modelled exactly on [Z],
    with the wrap-around of [ToInt32] / [ToUint32] written out.  The
    arithmetic of the drawing code ([+], [-], [*], [/], [%], [Math.sin],
    [Math.cos], [Math.PI]) is modelled on the real numbers [R]: rounding is
    not part of the model, and neither are [NaN] and the infinities, except
    where a definition says so ([jsnum], used for the duration input, and
    [Double], the position of the cat on binary64 floats).  At a wrap of
    [%] the rounding of the dividend can move the value the code computes
    by one divisor; positions are therefore stated as ranges and up to
    whole loop distances.

    Effects.  The 2D context is a record of the style state, the current
    path and the list of painted primitives; a drawing procedure is the
    list of context calls it makes, executed by [run].  The closure state
    of [mulberry32] is passed explicitly.  The page ([useState] cells, the
    [animRef] object and the in-flight invocations of [handleRecord]) is a
    record moved by one function per event. *)

From Stdlib Require Import ZArith List String Reals Lra Lia Bool.
From Stdlib Require Import Sorted Permutation.
From Stdlib Require Import PrimFloat.
From Stdlib Require FloatOps SpecFloat.
Import ListNotations.

(* ================================================================== *)
(** ** 32-bit integer operators of JavaScript *)

Module JS.
Open Scope Z_scope.

Definition two32 : Z := 4294967296.

(** [ToUint32] and [ToInt32] of an integer-valued number. *)
Definition ToUint32 (z : Z) : Z := z mod two32.
Definition ToInt32 (z : Z) : Z := (z + 2147483648) mod two32 - 2147483648.

(** [a ^ b], [a | b], [a >>> n] and [Math.imul(a, b)]. *)
Definition xor (a b : Z) : Z := Z.lxor (ToInt32 a) (ToInt32 b).
Definition or (a b : Z) : Z := Z.lor (ToInt32 a) (ToInt32 b).
Definition ushr (a n : Z) : Z := Z.shiftr (ToUint32 a) (n mod 32).
Definition imul (a b : Z) : Z := ToInt32 (ToInt32 a * ToInt32 b).

(** Addition of two integer-valued doubles: the exact sum, rounded to a
    53-bit significand, ties to even.  Below 2^53 it is the exact sum. *)
Definition roundDouble (z : Z) : Z :=
  let m := Z.abs z in
  if m <? 9007199254740992 then z
  else
    let k := Z.log2 m - 52 in
    let q := Z.shiftr m k in
    let r := m - Z.shiftl q k in
    let half := Z.shiftl 1 (k - 1) in
    let q' := if (half <? r) || ((half =? r) && Z.odd q) then q + 1 else q in
    Z.sgn z * Z.shiftl q' k.

Definition add (a b : Z) : Z := roundDouble (a + b).

End JS.

(* ================================================================== *)
(** ** [mulberry32]: the seeded generator *)

Open Scope R_scope.

(** The closure returned by [mulberry32(a)] owns the variable [a]; the
    generator is that variable. *)
Definition Rng : Type := Z.

Definition mulberry32 (a : Z) : Rng := a.

(** The numerator [(t ^ (t >>> 14)) >>> 0] computed by one call from the
    state [a] after [a += 0x6d2b79f5]. *)
Definition mulberry32_mix (a : Z) : Z :=
  let t := a in
  let t := JS.imul (JS.xor t (JS.ushr t 15)) (JS.or t 1) in
  let t := JS.xor t (t + JS.imul (JS.xor t (JS.ushr t 7)) (JS.or t 61))%Z in
  JS.ushr (JS.xor t (JS.ushr t 14)) 0.

(** [a += 0x6d2b79f5]: the variable is a number, the sum is not wrapped. *)
Definition rng_advance (a : Z) : Z := JS.add a 1831565813.

(** One call of the generator: the value returned and the new state. *)
Definition rng_call (g : Rng) : R * Rng :=
  let a := rng_advance g in
  (IZR (mulberry32_mix a) / 4294967296, a).

(** [n] successive calls. *)
Fixpoint rng_calls (n : nat) (g : Rng) : list R * Rng :=
  match n with
  | O => ([], g)
  | S n' =>
      let (v, g1) := rng_call g in
      let (vs, g2) := rng_calls n' g1 in
      (v :: vs, g2)
  end.

(* ================================================================== *)
(** ** Real-number operators of the drawing code *)

(** Truncation towards zero. *)
Definition trunc (r : R) : Z :=
  if Rle_dec 0 r then Int_part r else (- Int_part (- r))%Z.

(** [a % b] on numbers: the remainder of the truncated division, with the
    sign of the dividend.  [b = 0] (where JavaScript gives [NaN]) is outside
    the model; statements about [js_rem] assume a non-zero divisor. *)
Definition js_rem (a b : R) : R := a - b * IZR (trunc (a / b)).

(** [noise2D]. *)
Definition noise2D (x y : R) : R :=
  sin (x * 1.3 + y * 0.7) * cos (x * 0.7 - y * 1.1) * 0.5 + 0.5.

(* ================================================================== *)
(** ** [Array.prototype.sort] with a comparator *)

(** The built-in sort is not part of the sources; ECMAScript requires it to
    be stable and to order by the sign of the comparator.  It is modelled as
    the stable insertion sort: an element is placed before the first element
    that the comparator puts strictly after it. *)
Section ArraySort.
Variable A : Type.
Variable cmp : A -> A -> R.

Fixpoint sort_insert (a : A) (l : list A) : list A :=
  match l with
  | [] => [a]
  | b :: l' =>
      if Rlt_dec 0 (cmp b a) then a :: b :: l' else b :: sort_insert a l'
  end.

Definition Array_sort (l : list A) : list A :=
  fold_left (fun acc a => sort_insert a acc) l [].
End ArraySort.

Arguments sort_insert {A} cmp a l.
Arguments Array_sort {A} cmp l.

(* ================================================================== *)
(** ** [generateTrees] *)

Module Tree.
Record t : Type := mk {
  x : R; baseY : R; height : R; width : R; layer : nat; hue : R
}.
End Tree.

(** The body of the [for] loop of [generateTrees] at index [i]: five calls
    of the generator, in the order of the source. *)
Definition generateTree (i : nat) (W H : R) (rng : Rng) : Tree.t * Rng :=
  let layer := (i mod 3)%nat in
  let (r, rng) := rng_call rng in
  let x := r * W * 2 - W * 0.5 in
  let (r, rng) := rng_call rng in
  let baseY := H * (0.65 + INR layer * 0.08) + (r - 0.5) * 20 in
  let (r, rng) := rng_call rng in
  let height := H * (0.12 + INR layer * 0.08) * (0.8 + r * 0.4) in
  let (r, rng) := rng_call rng in
  let width := height * (0.06 + r * 0.04) in
  let (r, rng) := rng_call rng in
  let hue := 115 + INR layer * 10 + r * 10 in
  (Tree.mk x baseY height width layer hue, rng).

(** The loop [for (let i = 0; i < count; i++)], with [n = count - i]
    iterations left; [trees.push] appends. *)
Fixpoint generateTrees_loop (n i : nat) (W H : R) (rng : Rng)
    (trees : list Tree.t) : list Tree.t :=
  match n with
  | O => trees
  | S n' =>
      let (tr, rng') := generateTree i W H rng in
      generateTrees_loop n' (S i) W H rng' (trees ++ [tr])
  end.

Definition generateTrees (count : nat) (W H : R) : list Tree.t :=
  let rng := mulberry32 123456 in
  let trees := generateTrees_loop count 0 W H rng [] in
  Array_sort (fun a b => INR (Tree.layer a) - INR (Tree.layer b)) trees.

(* ================================================================== *)
(** ** The 2D drawing context *)

(** A value of [fillStyle] / [strokeStyle]: a CSS colour string, a colour
    built by a template literal [hsl(h, s%, l%)], or a linear gradient with
    its colour stops. *)
Inductive paint : Type :=
| Css (colour : string)
| Hsl (h s l : R)
| LinearGradient (x0 y0 x1 y1 : R) (stops : list (R * string)).

Definition createLinearGradient (x0 y0 x1 y1 : R) : paint :=
  LinearGradient x0 y0 x1 y1 [].

Definition addColorStop (offset : R) (colour : string) (g : paint) : paint :=
  match g with
  | LinearGradient x0 y0 x1 y1 stops =>
      LinearGradient x0 y0 x1 y1 (stops ++ [(offset, colour)])
  | _ => g
  end.

(** The calls the drawing code makes on the context. *)
Inductive cmd : Type :=
| SetFillStyle (p : paint)
| SetStrokeStyle (p : paint)
| SetLineWidth (w : R)
| SetLineCap (cap : string)
| FillRect (x y w h : R)
| BeginPath
| MoveTo (x y : R)
| LineTo (x y : R)
| QuadraticCurveTo (cpx cpy x y : R)
| Ellipse (x y rx ry rotation a0 a1 : R)
| Arc (x y r a0 a1 : R)
| ClosePath
| Fill
| Stroke.

(** What reaches the surface: each painted primitive with the style state
    it was painted under.  The pixels are a function of this sequence. *)
Inductive painted : Type :=
| PaintRect (fill : paint) (x y w h : R)
| PaintFill (fill : paint) (path : list cmd)
| PaintStroke (stroke : paint) (lineWidth : R) (lineCap : string)
    (path : list cmd).

Record ctx : Type := mkCtx {
  fillStyle : paint;
  strokeStyle : paint;
  lineWidth : R;
  lineCap : string;
  path : list cmd;
  surface : list painted
}.

(** A fresh context: the defaults of the canvas, nothing painted. *)
Definition fresh_ctx : ctx :=
  mkCtx (Css "#000000") (Css "#000000") 1 "butt" [] [].

Definition exec (c : ctx) (op : cmd) : ctx :=
  match op with
  | SetFillStyle p =>
      mkCtx p (strokeStyle c) (lineWidth c) (lineCap c) (path c) (surface c)
  | SetStrokeStyle p =>
      mkCtx (fillStyle c) p (lineWidth c) (lineCap c) (path c) (surface c)
  | SetLineWidth w =>
      mkCtx (fillStyle c) (strokeStyle c) w (lineCap c) (path c) (surface c)
  | SetLineCap s =>
      mkCtx (fillStyle c) (strokeStyle c) (lineWidth c) s (path c) (surface c)
  | FillRect x y w h =>
      mkCtx (fillStyle c) (strokeStyle c) (lineWidth c) (lineCap c) (path c)
        (surface c ++ [PaintRect (fillStyle c) x y w h])
  | BeginPath =>
      mkCtx (fillStyle c) (strokeStyle c) (lineWidth c) (lineCap c) []
        (surface c)
  | MoveTo _ _ | LineTo _ _ | QuadraticCurveTo _ _ _ _
  | Ellipse _ _ _ _ _ _ _ | Arc _ _ _ _ _ | ClosePath =>
      mkCtx (fillStyle c) (strokeStyle c) (lineWidth c) (lineCap c)
        (path c ++ [op]) (surface c)
  | Fill =>
      mkCtx (fillStyle c) (strokeStyle c) (lineWidth c) (lineCap c) (path c)
        (surface c ++ [PaintFill (fillStyle c) (path c)])
  | Stroke =>
      mkCtx (fillStyle c) (strokeStyle c) (lineWidth c) (lineCap c) (path c)
        (surface c
           ++ [PaintStroke (strokeStyle c) (lineWidth c) (lineCap c) (path c)])
  end.

Definition run (c : ctx) (ops : list cmd) : ctx := fold_left exec ops c.

(* ================================================================== *)
(** ** The drawing procedures *)

(** [drawBlob]: seventeen outline points, a move then sixteen lines. *)
Definition drawBlob (x y w h : R) : list cmd :=
  [BeginPath]
  ++ map (fun i : nat =>
            let a := INR i / 16 * PI * 2 in
            let rx := cos a * w * (0.45 + 0.1 * noise2D (cos a) (sin a)) in
            let ry := sin a * h * (0.45 + 0.1 * noise2D (sin a) (cos a)) in
            let px := x + w * 0.5 + rx in
            let py := y + h * 0.5 + ry in
            if Nat.eqb i 0 then MoveTo px py else LineTo px py)
         (seq 0 17)
  ++ [ClosePath; Fill].

(** [[8, 16, 32][tr.layer]]: [None] is the [undefined] of an index out of
    range. *)
Definition layerSpeeds : list R := [8; 16; 32].

Definition layerSpeed (layer : nat) : option R := nth_error layerSpeeds layer.

(** The horizontal screen position [px] of a tree at time [t]; [None] is
    the [NaN] that arithmetic on [undefined] gives.  On the reals the
    dividend [x - t * speed] is not rounded, so at a wrap this value and
    the one the doubles give can be one wrap distance [2 W] apart; what is
    stated of it are ranges and equalities up to whole wrap distances. *)
Definition treeScreenX (W t : R) (tr : Tree.t) : option R :=
  match layerSpeed (Tree.layer tr) with
  | Some speed => Some (js_rem (Tree.x tr - t * speed) (W * 2) + W)
  | None => None
  end.

(** One iteration of the loop of [drawForest].  With [px = NaN] the context
    ignores [fillRect], [moveTo] and [lineTo] (calls with a non-finite
    argument do nothing), so only the style changes and an empty path
    remain. *)
Definition drawTree (W H t : R) (tr : Tree.t) : list cmd :=
  let trunk := Hsl (Tree.hue tr) 25 (30 + INR (Tree.layer tr) * 5) in
  let canopy := Hsl (Tree.hue tr) 35 (28 + INR (Tree.layer tr) * 8) in
  match treeScreenX W t tr with
  | Some px =>
      let canopyW := Tree.width tr * 6 in
      let canopyH := Tree.height tr * 0.8 in
      [SetFillStyle trunk;
       FillRect px (Tree.baseY tr - Tree.height tr)
         (Tree.width tr) (Tree.height tr);
       SetFillStyle canopy]
      ++ drawBlob (px - canopyW * 0.3)
           (Tree.baseY tr - Tree.height tr - canopyH * 0.5) canopyW canopyH
  | None =>
      [SetFillStyle trunk; SetFillStyle canopy; BeginPath; ClosePath; Fill]
  end.

Definition drawForest (W H : R) (trees : list Tree.t) (t : R) : list cmd :=
  flat_map (drawTree W H t) trees.

(** The values of [x] in [for (let x = 0; x <= W; x += 8)]: [0, 8, ...]
    up to [W]; none when [W < 0]. *)
Definition hill_xs (W : R) : list R :=
  if Rle_dec 0 W
  then map (fun k : nat => INR k * 8) (seq 0 (S (Z.to_nat (Int_part (W / 8)))))
  else [].

Definition drawHills (W H t : R) : list cmd :=
  let layers := 3%nat in
  flat_map (fun i : nat =>
      let yBase := H * (0.55 - INR i * 0.07) in
      [SetFillStyle (Hsl (140 + INR i * 8) 25 (70 - INR i * 8));
       BeginPath;
       MoveTo 0 H]
      ++ map (fun x =>
                let y := yBase
                  + 30 * sin ((x + INR i * 200) * 0.004
                              + t * (0.05 + INR i * 0.02)) in
                LineTo x y)
             (hill_xs W)
      ++ [LineTo W H; ClosePath; Fill])
    (seq 0 layers).

Definition drawGrass (W H t : R) : list cmd :=
  let blades := 140%nat in
  [SetStrokeStyle (Css "#2a5f2a"); SetLineWidth 2]
  ++ flat_map (fun i : nat =>
        let x := js_rem (INR i / INR blades * W
                         + sin ((t + INR i) * 0.7) * 20) W in
        let h := 30 + 20 * sin (INR i * 0.5 + t * 1.2) in
        let sway := sin (t * 2 + INR i) * 8 in
        [BeginPath;
         MoveTo x (H * 0.98);
         QuadraticCurveTo (x + sway) (H * 0.98 - h * 0.6)
           (x + sway * 1.6) (H * 0.98 - h);
         Stroke])
      (seq 0 blades).

(** The horizontal position [x] of the cat, the first local constants of
    [drawCat].  On the reals the product [t * speed] is not rounded, so at
    a wrap this value and the one the doubles give ([Double.cat_x]) can be
    one loop distance apart; what is stated of it are ranges and equalities
    up to whole loop distances. *)
Definition cat_x (t W : R) : R :=
  let speed := 140 in (* px/sec *)
  let loopW := W + 300 in
  js_rem (t * speed) loopW - 150. (* start off-screen *)

(** [drawCat]. *)
Definition drawCat (t W H : R) : list cmd :=
  let groundY := H * 0.78 in
  let x := cat_x t W in
  let step := sin (t * 8) in
  let bob := sin (t * 6) * 4 in
  let bodyY := groundY - 80 + bob in
  (* Shadow *)
  [SetFillStyle (Css "rgba(0,0,0,0.15)");
   BeginPath;
   Ellipse (x + 120) (groundY + 6) 80 16 0 0 (PI * 2);
   Fill;
  (* Tail *)
   SetStrokeStyle (Css "#333");
   SetLineWidth 14;
   SetLineCap "round";
   BeginPath;
   MoveTo (x + 40) (bodyY - 10);
   QuadraticCurveTo (x - 20) (bodyY - 50 - step * 8)
     (x + 10) (bodyY - 70 - step * 4);
   Stroke;
  (* Body *)
   SetFillStyle (Css "#444");
   BeginPath;
   Ellipse (x + 110) bodyY 90 48 0 0 (PI * 2);
   Fill;
  (* Legs *)
   SetStrokeStyle (Css "#3a3a3a");
   SetLineWidth 10;
   SetLineCap "round"]
  ++ (let legY := groundY - 8 in
      flat_map (fun i : nat =>
          let phase := if Nat.eqb (i mod 2) 0 then step else - step in
          let lx := x + 70 + INR i * 22 in
          [BeginPath;
           MoveTo lx (bodyY + 20);
           LineTo (lx + phase * 12) legY;
           Stroke])
        (seq 0 4))
  ++ (let headX := x + 180 in
      let headY := bodyY - 10 in
      (* Head *)
      [SetFillStyle (Css "#4b4b4b");
       BeginPath;
       Ellipse headX headY 34 30 0 0 (PI * 2);
       Fill;
      (* Ears *)
       SetFillStyle (Css "#3e3e3e");
       BeginPath;
       MoveTo (headX - 18) (headY - 20);
       LineTo (headX - 6) (headY - 40);
       LineTo (headX + 2) (headY - 18);
       ClosePath;
       Fill;
       BeginPath;
       MoveTo (headX + 10) (headY - 18);
       LineTo (headX + 24) (headY - 36);
       LineTo (headX + 26) (headY - 14);
       ClosePath;
       Fill;
      (* Eye *)
       SetFillStyle (Css "#ffd15c");
       BeginPath;
       Arc (headX + 10) (headY - 4) 4 0 (PI * 2);
       Fill;
       SetFillStyle (Css "#222");
       BeginPath;
       Arc (headX + 10) (headY - 4) 2 0 (PI * 2);
       Fill;
      (* Nose *)
       SetFillStyle (Css "#e67d7d");
       BeginPath;
       Arc (headX - 5) (headY + 4) 3 0 (PI * 2);
       Fill;
      (* Whiskers *)
       SetStrokeStyle (Css "#ddd");
       SetLineWidth 1.5]
      ++ flat_map (fun i : Z =>
            [BeginPath;
             MoveTo (headX - 8) (headY + 4 + IZR i * 4);
             LineTo (headX - 32) (headY + 2 + IZR i * 5);
             Stroke])
          [(-1)%Z; 0%Z; 1%Z]).

(** The body of the frame callback [render] after [elapsed] is known
    (lines 39 to 63): sky, hills, forest, ground, cat, grass. *)
Definition renderFrame (elapsed W H : R) (trees : list Tree.t) : list cmd :=
  (let sky := createLinearGradient 0 0 0 H in
   let sky := addColorStop 0 "#a8d0ff" sky in
   let sky := addColorStop 1 "#e8f6ff" sky in
   [SetFillStyle sky; FillRect 0 0 W H])
  ++ drawHills W H elapsed
  ++ drawForest W H trees elapsed
  ++ (let grd := createLinearGradient 0 (H * 0.7) 0 H in
      let grd := addColorStop 0 "#5aa35a" grd in
      let grd := addColorStop 1 "#2e6b2e" grd in
      [SetFillStyle grd; FillRect 0 (H * 0.72) W (H * 0.28)])
  ++ drawCat elapsed W H
  ++ drawGrass W H elapsed.

(** The object behind [animRef]. *)
Module Anim.
Record t : Type := mk {
  startTime : R; lastTime : R; running : bool; width : R; height : R
}.
End Anim.

(** The frame callback [render(t)]: the new animation state, the context
    after the frame, and whether the next frame was requested. *)
Definition render (trees : list Tree.t) (t : R) (a : Anim.t) (c : ctx)
    : Anim.t * ctx * bool :=
  if negb (Anim.running a) then (a, c, false)
  else
    let W := Anim.width a in
    let H := Anim.height a in
    let a :=
      if Req_dec_T (Anim.startTime a) 0
      then Anim.mk t (Anim.lastTime a) (Anim.running a) W H
      else a in
    let elapsed := (t - Anim.startTime a) / 1000 in
    (a, run c (renderFrame elapsed W H trees), true).

(* ================================================================== *)
(** ** The page: recording state and the capture controller *)

(** The result of [Number(e.target.value)]: here [NaN] and the infinities
    are kept. *)
Inductive jsnum : Type :=
| NaN
| Inf (negative : bool)
| Fin (r : R).

Definition Math_min (a b : jsnum) : jsnum :=
  match a, b with
  | NaN, _ | _, NaN => NaN
  | Inf true, _ | _, Inf true => Inf true
  | Inf false, v | v, Inf false => v
  | Fin x, Fin y => Fin (Rmin x y)
  end.

Definition Math_max (a b : jsnum) : jsnum :=
  match a, b with
  | NaN, _ | _, NaN => NaN
  | Inf false, _ | _, Inf false => Inf false
  | Inf true, v | v, Inf true => v
  | Fin x, Fin y => Fin (Rmax x y)
  end.

(** [a * b] on numbers. *)
Definition js_mul (a b : jsnum) : jsnum :=
  match a, b with
  | NaN, _ | _, NaN => NaN
  | Fin x, Fin y => Fin (x * y)
  | Inf s, Inf s' => Inf (xorb s s')
  | Inf s, Fin y | Fin y, Inf s =>
      if Req_dec_T y 0 then NaN
      else Inf (xorb s (if Rlt_dec y 0 then true else false))
  end.

Inductive RecordingState : Type :=
| idle | recording | processing | done | error.

(** A [Blob]: its size and content type. *)
Record Blob : Type := mkBlob { blob_size : nat; blob_type : string }.

(** [new Blob(chunks, { type })]. *)
Definition Blob_of (chunks : list Blob) (type : string) : Blob :=
  mkBlob (fold_right (fun b n => (blob_size b + n)%nat) 0%nat chunks) type.

(** An invocation of [handleRecord] that has reached [recorder.start()]:
    its local variables and the [await] it is suspended at. *)
Inductive Await : Type :=
| AwaitWait    (* await wait(durationSec * 1000) *)
| AwaitStop    (* await new Promise(... recorder.onstop ...) *)
| Returned.

Record Session : Type := mkSession {
  mimeType : string;
  chunks : list Blob;
  waitMs : jsnum;
  at_await : Await
}.

(** What the browser offers when the button is pressed. *)
Record Browser : Type := mkBrowser {
  canvasMounted : bool;            (* canvasRef.current is not null *)
  hasCaptureStream : bool;         (* "captureStream" in canvas *)
  hasMediaRecorder : bool;         (* window.MediaRecorder *)
  isTypeSupported : string -> bool (* MediaRecorder.isTypeSupported *)
}.

Module Page.
Record t : Type := mk {
  recState : RecordingState;
  videoUrl : option Blob;        (* the blob behind the object URL *)
  errorMsg : option string;
  durationSec : jsnum;
  anim : Anim.t;                 (* animRef.current *)
  sessions : list Session        (* invocations of handleRecord in flight *)
}.

Definition setRecState (s : RecordingState) (p : t) : t :=
  mk s (videoUrl p) (errorMsg p) (durationSec p) (anim p) (sessions p).
Definition setVideoUrl (v : option Blob) (p : t) : t :=
  mk (recState p) v (errorMsg p) (durationSec p) (anim p) (sessions p).
Definition setErrorMsg (m : option string) (p : t) : t :=
  mk (recState p) (videoUrl p) m (durationSec p) (anim p) (sessions p).
Definition setDurationSec (d : jsnum) (p : t) : t :=
  mk (recState p) (videoUrl p) (errorMsg p) d (anim p) (sessions p).
Definition setSessions (l : list Session) (p : t) : t :=
  mk (recState p) (videoUrl p) (errorMsg p) (durationSec p) (anim p) l.
Definition setAnim (a : Anim.t) (p : t) : t :=
  mk (recState p) (videoUrl p) (errorMsg p) (durationSec p) a (sessions p).

(** The effect that starts the animation once the canvas and its
    context exist, and the clean-up it returns. *)
Definition effect_start (p : t) : t :=
  let a := anim p in
  setAnim (Anim.mk (Anim.startTime a) (Anim.lastTime a) true
             (Anim.width a) (Anim.height a)) p.
Definition effect_cleanup (p : t) : t :=
  let a := anim p in
  setAnim (Anim.mk (Anim.startTime a) (Anim.lastTime a) false
             (Anim.width a) (Anim.height a)) p.

(** The initial values of the [useState] cells and of [animRef]. *)
Definition init : t :=
  mk idle None None (Fin 10) (Anim.mk 0 0 false 1280 720) [].
End Page.

Definition mimeTypes : list string :=
  ["video/webm;codecs=vp9,opus";
   "video/webm;codecs=vp8,opus";
   "video/webm"]%string.

(** The loop that picks [mimeType]: the first supported entry, or the empty
    string. *)
Fixpoint pickMimeType (b : Browser) (l : list string) : string :=
  match l with
  | [] => ""%string
  | mt :: l' =>
      if hasMediaRecorder b && isTypeSupported b mt then mt
      else pickMimeType b l'
  end.

(** [handleRecord] up to its first [await] (lines 76 to 124). *)
Definition handleRecord (b : Browser) (p : Page.t) : Page.t :=
  let p := Page.setErrorMsg None p in
  let p := Page.setVideoUrl None p in
  if negb (canvasMounted b) then p
  else if negb (hasCaptureStream b) then
    let p := Page.setErrorMsg
               (Some "Canvas captureStream not supported in this browser."%string)
               p in
    Page.setRecState error p
  else
    let mimeType := pickMimeType b mimeTypes in
    if String.eqb mimeType "" then
      let p := Page.setErrorMsg
                 (Some
                    "MediaRecorder with WebM is not supported by this browser."%string)
                 p in
      Page.setRecState error p
    else
      let p := Page.setRecState recording p in
      let ms := js_mul (Page.durationSec p) (Fin 1000) in
      Page.setSessions
        (Page.sessions p ++ [mkSession mimeType [] ms AwaitWait]) p.

(** Replace the [i]-th session. *)
Fixpoint update_nth (i : nat) (s : Session) (l : list Session) : list Session :=
  match l, i with
  | [], _ => []
  | _ :: l', O => s :: l'
  | s0 :: l', S i' => s0 :: update_nth i' s l'
  end.

(** The continuation after [await wait(...)] (lines 126 to 131), for the
    [i]-th session. *)
Definition afterWait (i : nat) (p : Page.t) : Page.t :=
  match nth_error (Page.sessions p) i with
  | Some s =>
      match at_await s with
      | AwaitWait =>
          let p := Page.setRecState processing p in
          Page.setSessions
            (update_nth i (mkSession (mimeType s) (chunks s) (waitMs s) AwaitStop)
               (Page.sessions p)) p
      | _ => p
      end
  | None => p
  end.

(** [recorder.onstop] and the continuation after it (lines 130 to 135). *)
Definition onstop (i : nat) (p : Page.t) : Page.t :=
  match nth_error (Page.sessions p) i with
  | Some s =>
      match at_await s with
      | AwaitStop =>
          let blob := Blob_of (chunks s) (mimeType s) in
          let p := Page.setVideoUrl (Some blob) p in
          let p := Page.setRecState done p in
          Page.setSessions
            (update_nth i (mkSession (mimeType s) (chunks s) (waitMs s) Returned)
               (Page.sessions p)) p
      | _ => p
      end
  | None => p
  end.

(** [recorder.ondataavailable]: [e.data] may be missing. *)
Definition ondataavailable (i : nat) (data : option Blob) (p : Page.t) : Page.t :=
  match nth_error (Page.sessions p) i, data with
  | Some s, Some d =>
      if (0 <? blob_size d)%nat then
        Page.setSessions
          (update_nth i
             (mkSession (mimeType s) (chunks s ++ [d]) (waitMs s) (at_await s))
             (Page.sessions p)) p
      else p
  | _, _ => p
  end.

(** [recorder.onerror]: [e?.error?.message || "Recording error"]. *)
Definition onerror (i : nat) (message : option string) (p : Page.t) : Page.t :=
  match nth_error (Page.sessions p) i with
  | Some _ =>
      let m := match message with
               | Some m => if String.eqb m "" then "Recording error"%string else m
               | None => "Recording error"%string
               end in
      let p := Page.setErrorMsg (Some m) p in
      Page.setRecState error p
  | None => p
  end.

(** The [onChange] of the duration input, given [Number(e.target.value)]. *)
Definition onDurationChange (v : jsnum) (p : Page.t) : Page.t :=
  Page.setDurationSec (Math_max (Fin 1) (Math_min (Fin 60) v)) p.

(** The button is disabled while recording or processing. *)
Definition button_disabled (p : Page.t) : bool :=
  match Page.recState p with
  | recording | processing => true
  | _ => false
  end.

(** The events that reach the capture controller and the duration input. *)
Inductive event : Type :=
| Click (b : Browser)
| WaitElapsed (i : nat)
| RecorderStopped (i : nat)
| RecorderData (i : nat) (data : option Blob)
| RecorderError (i : nat) (message : option string)
| DurationInput (v : jsnum).

Definition step (p : Page.t) (e : event) : Page.t :=
  match e with
  | Click b => if button_disabled p then p else handleRecord b p
  | WaitElapsed i => afterWait i p
  | RecorderStopped i => onstop i p
  | RecorderData i d => ondataavailable i d p
  | RecorderError i m => onerror i m p
  | DurationInput v => onDurationChange v p
  end.

Definition steps (p : Page.t) (es : list event) : Page.t := fold_left step es p.

(* ================================================================== *)
(** ** Auxiliary definitions used by the statements and proofs *)

(** The state of the generator after [n] calls. *)
Definition rng_skip (n : nat) (g : Rng) : Rng := Nat.iter n rng_advance g.

(** The descriptor pushed at index [k] of the loop of [generateTrees]. *)
Definition tree_at (k : nat) (W H : R) : Tree.t :=
  fst (generateTree k W H (rng_skip (5 * k) (mulberry32 123456))).

(** The comparator [(a, b) => key(a) - key(b)] and the order it sorts by. *)
Definition key_cmp {A : Type} (key : A -> R) (a b : A) : R := key a - key b.
Definition key_le {A : Type} (key : A -> R) (a b : A) : Prop := key a <= key b.

(** Non-decreasing parallax layer. *)
Definition layer_le (a b : Tree.t) : Prop :=
  (Tree.layer a <= Tree.layer b)%nat.

(** The size of a tree of a layer before the random factor, and the base
    line of a layer before the random offset. *)
Definition nominal_height (H : R) (layer : nat) : R :=
  H * (0.12 + INR layer * 0.08).
Definition nominal_baseY (H : R) (layer : nat) : R :=
  H * (0.65 + INR layer * 0.08).

(** What [generateTree] guarantees of a descriptor. *)
Definition tree_shape (H : R) (tr : Tree.t) : Prop :=
  (Tree.layer tr < 3)%nat
  /\ (exists r, 0 <= r < 1
        /\ Tree.baseY tr = nominal_baseY H (Tree.layer tr) + (r - 0.5) * 20)
  /\ (exists r, 0 <= r < 1
        /\ Tree.height tr = nominal_height H (Tree.layer tr) * (0.8 + r * 0.4)).

(** The point a path call ends at (the centre, for an ellipse or an arc),
    and the control point of a quadratic curve. *)
Definition cmd_point (op : cmd) : R * R :=
  match op with
  | MoveTo x y | LineTo x y | QuadraticCurveTo _ _ x y
  | Ellipse x y _ _ _ _ _ | Arc x y _ _ _ => (x, y)
  | _ => (0, 0)
  end.

Definition cmd_control (op : cmd) : R * R :=
  match op with
  | QuadraticCurveTo cpx cpy _ _ => (cpx, cpy)
  | _ => (0, 0)
  end.

(** The pose of the cat, read off the calls of [drawCat]: call 13 is the
    body ellipse, calls 8 and 9 the tail, calls [19 + 4 i] and [20 + 4 i]
    the two ends of leg [i]. *)

(** The height of the body centre above its rest height [groundY - 80]. *)
Definition body_bob (H : R) (ops : list cmd) : R :=
  snd (cmd_point (nth 13 ops BeginPath)) - (H * 0.78 - 80).

(** How far the foot of leg [i] is ahead of its hip. *)
Definition leg_swing (i : nat) (ops : list cmd) : R :=
  fst (cmd_point (nth (20 + 4 * i) ops BeginPath))
  - fst (cmd_point (nth (19 + 4 * i) ops BeginPath)).

(** The heights of the control point and of the tip of the tail above its
    root. *)
Definition tail_curl (ops : list cmd) : R * R :=
  let y0 := snd (cmd_point (nth 8 ops BeginPath)) in
  (snd (cmd_control (nth 9 ops BeginPath)) - y0,
   snd (cmd_point (nth 9 ops BeginPath)) - y0).

(** The gait phase: the constant [step] of [drawCat]. *)
Definition gait_phase (t : R) : R := sin (t * 8).

(** Which parts of the style state of two contexts are known to be equal;
    [agree k c1 c2] says that the two surfaces hold the same painted
    sequence and that the parts marked in [k] coincide. *)
Record known : Type := mkKnown {
  kFill : bool; kStroke : bool; kWidth : bool; kCap : bool; kPath : bool
}.

Definition agree (k : known) (c1 c2 : ctx) : Prop :=
  surface c1 = surface c2
  /\ (kFill k = true -> fillStyle c1 = fillStyle c2)
  /\ (kStroke k = true -> strokeStyle c1 = strokeStyle c2)
  /\ (kWidth k = true -> lineWidth c1 = lineWidth c2)
  /\ (kCap k = true -> lineCap c1 = lineCap c2)
  /\ (kPath k = true -> path c1 = path c2).

(** A call paints only from known parts of the state. *)
Definition reads_ok (k : known) (op : cmd) : bool :=
  match op with
  | FillRect _ _ _ _ => kFill k
  | Fill => kFill k && kPath k
  | Stroke => kStroke k && kWidth k && kCap k && kPath k
  | _ => true
  end.

(** What is known after a call. *)
Definition after (k : known) (op : cmd) : known :=
  match op with
  | SetFillStyle _ => mkKnown true (kStroke k) (kWidth k) (kCap k) (kPath k)
  | SetStrokeStyle _ => mkKnown (kFill k) true (kWidth k) (kCap k) (kPath k)
  | SetLineWidth _ => mkKnown (kFill k) (kStroke k) true (kCap k) (kPath k)
  | SetLineCap _ => mkKnown (kFill k) (kStroke k) (kWidth k) true (kPath k)
  | BeginPath => mkKnown (kFill k) (kStroke k) (kWidth k) (kCap k) true
  | _ => k
  end.

Fixpoint check (k : known) (ops : list cmd) : option known :=
  match ops with
  | [] => Some k
  | op :: ops' => if reads_ok k op then check (after k op) ops' else None
  end.

(** [k1] knows no more than [k2]. *)
Definition known_le (k1 k2 : known) : bool :=
  implb (kFill k1) (kFill k2) && implb (kStroke k1) (kStroke k2)
  && implb (kWidth k1) (kWidth k2) && implb (kCap k1) (kCap k2)
  && implb (kPath k1) (kPath k2).

(** Running [ops] takes contexts that agree on [k] to contexts that agree
    on [k']. *)
Definition carries (k : known) (ops : list cmd) (k' : known) : Prop :=
  forall c1 c2, agree k c1 c2 -> agree k' (run c1 ops) (run c2 ops).

(** A call that only extends the current path. *)
Definition path_call (op : cmd) : bool :=
  match op with
  | MoveTo _ _ | LineTo _ _ | QuadraticCurveTo _ _ _ _
  | Ellipse _ _ _ _ _ _ _ | Arc _ _ _ _ _ | ClosePath => true
  | _ => false
  end.

Definition K_none : known := mkKnown false false false false false.
Definition K_fill : known := mkKnown true false false false false.
Definition K_all : known := mkKnown true true true true true.

(** A stored duration that is a number of the interval [1, 60], and one
    that is an integer. *)
Definition in_1_60 (v : jsnum) : Prop :=
  match v with Fin r => 1 <= r <= 60 | _ => False end.

Definition is_integer (v : jsnum) : Prop :=
  match v with Fin r => exists z : Z, r = IZR z | _ => False end.

(** A wait of between one and sixty seconds, in milliseconds. *)
Definition waits_1_to_60_s (s : Session) : Prop :=
  match waitMs s with Fin ms => 1000 <= ms <= 60000 | _ => False end.

(** An event that does not bring [NaN] to the duration input. *)
Definition numeric_input (e : event) : bool :=
  match e with DurationInput NaN => false | _ => true end.

(** Two browsers for the examples: one that offers everything the capture
    controller asks for, and one whose canvas has no [captureStream]. *)
Definition browser_full : Browser := mkBrowser true true true (fun _ => true).
Definition browser_no_capture : Browser :=
  mkBrowser true false true (fun _ => true).

(** One complete recording: the button, the end of the wait, the stop of
    the recorder. *)
Definition one_recording : list event :=
  [Click browser_full; WaitElapsed 0; RecorderStopped 0].


(* ================================================================== *)
(** ** Further definitions: the animation loop and counting *)

(** A call that paints on the surface. *)
Definition paint_call (op : cmd) : bool :=
  match op with
  | FillRect _ _ _ _ | Fill | Stroke => true
  | _ => false
  end.

Definition paint_count (ops : list cmd) : nat :=
  List.length (filter paint_call ops).

(** The animation loop: [render] ends with [requestAnimationFrame(render)],
    so the browser calls it again with the next timestamp for as long as
    the previous call asked for it.  [ts] are the timestamps of the frame
    callbacks the browser delivers. *)
Fixpoint animate (trees : list Tree.t) (ts : list R) (a : Anim.t) (c : ctx)
    : Anim.t * ctx :=
  match ts with
  | [] => (a, c)
  | t :: ts' =>
      match render trees t a c with
      | (a', c', true) => animate trees ts' a' c'
      | (a', c', false) => (a', c')
      end
  end.

(** The browser supports recording the format [mt]. *)
Definition supports (b : Browser) (mt : string) : bool :=
  hasMediaRecorder b && isTypeSupported b mt.

(** The chunks that [ondataavailable] keeps of the data delivered: those
    present and of size above 0. *)
Definition kept_chunks (ds : list (option Blob)) : list Blob :=
  flat_map (fun d => match d with
                     | Some d => if (0 <? blob_size d)%nat then [d] else []
                     | None => []
                     end) ds.

(** A session whose invocation of [handleRecord] has not returned. *)
Definition in_flight (s : Session) : bool :=
  match at_await s with Returned => false | _ => true end.

(** Events: a click with the canvas mounted, and anything but an error
    event of a recorder. *)
Definition canvas_present (e : event) : bool :=
  match e with Click b => canvasMounted b | _ => true end.

Definition no_recorder_error (e : event) : bool :=
  match e with RecorderError _ _ => false | _ => true end.

(** The number of bytes in the data delivered. *)
Definition delivered_size (ds : list (option Blob)) : nat :=
  fold_right (fun d n => match d with
                         | Some d => (blob_size d + n)%nat
                         | None => n
                         end) 0%nat ds.

(* ================================================================== *)
(** ** The position of the cat in binary64 arithmetic *)

(** The numbers of JavaScript are the binary64 floats; [+], [-], [*] and
    [/] are the primitive operations.  [%] is exact on floats: the
    remainder of the truncated division of the two values, with the sign
    of the dividend; [NaN] for an infinite dividend or a zero divisor, the
    dividend itself for a zero dividend or an infinite divisor. *)
Module Double.
Import PrimFloat FloatOps SpecFloat.

Definition js_rem (x y : float) : float :=
  match Prim2SF x, Prim2SF y with
  | S754_nan, _ | _, S754_nan => nan
  | S754_infinity _, _ => nan
  | _, S754_zero _ => nan
  | S754_zero _, _ => x
  | S754_finite _ _ _, S754_infinity _ => x
  | S754_finite sx mx ex, S754_finite _ my ey =>
      (* both values as integers in units of 2^e *)
      let e := Z.min ex ey in
      let a := Z.shiftl (Zpos mx) (ex - e) in
      let b := Z.shiftl (Zpos my) (ey - e) in
      let r := Z.rem a b in
      match r with
      | Zpos _ =>
          (* r * 2^e is a float: at most 53 significant bits *)
          let k := Z.max 0 (Z.log2 r + 1 - 53) in
          SF2Prim (S754_finite sx (Z.to_pos (Z.shiftr r k)) (e + k))
      | _ => if sx then neg_zero else zero
      end
  end.

(** The constant [x] of [drawCat], as the code computes it. *)
Definition cat_x (t W : float) : float :=
  let speed := 140%float in
  let loopW := (W + 300)%float in
  (js_rem (t * speed) loopW - 150)%float.

End Double.

(* ================================================================== *)
(** ** The chain of recording statuses *)

(** The next status along the chain idle, recording, processing, done,
    with the restart from [done] and [error]. *)
Definition chain_next (s s' : RecordingState) : bool :=
  match s, s' with
  | idle, recording | recording, processing | processing, done
  | done, recording | error, recording => true
  | _, _ => false
  end.

(** The event that makes a move to the status [s']: the button for
    [recording], the end of the wait for [processing], the stop of the
    recorder for [done]. *)
Definition moves_to (e : event) (s' : RecordingState) : bool :=
  match e, s' with
  | Click _, recording | WaitElapsed _, processing
  | RecorderStopped _, done => true
  | _, _ => false
  end.

(** A press of the enabled button in a browser that cannot capture: the
    canvas is mounted and has no [captureStream], or no format of the
    preference list is supported. *)
Definition capture_refused (p : Page.t) (e : event) : Prop :=
  exists b, e = Click b
            /\ button_disabled p = false
            /\ canvasMounted b = true
            /\ (hasCaptureStream b = false
                \/ pickMimeType b mimeTypes = ""%string).

(* ================================================================== *)
(** * Properties *)

(* ------------------------------------------------------------------ *)
(** *** Range of the generator *)

Lemma ToUint32_range (z : Z) : (0 <= JS.ToUint32 z < JS.two32)%Z.
Proof. unfold JS.ToUint32, JS.two32. apply Z.mod_pos_bound. lia. Qed.

Lemma ushr0_range (z : Z) : (0 <= JS.ushr z 0 < JS.two32)%Z.
Proof.
  unfold JS.ushr. change (0 mod 32)%Z with 0%Z. rewrite Z.shiftr_0_r.
  apply ToUint32_range.
Qed.

Lemma mulberry32_mix_range (a : Z) : (0 <= mulberry32_mix a < 4294967296)%Z.
Proof. unfold mulberry32_mix. apply ushr0_range. Qed.

Lemma rng_call_range (g : Rng) : 0 <= fst (rng_call g) < 1.
Proof.
  unfold rng_call; cbn [fst].
  pose proof (mulberry32_mix_range (rng_advance g)) as [Hlo Hhi].
  apply IZR_le in Hlo. apply IZR_lt in Hhi.
  split.
  - apply Rmult_le_reg_r with 4294967296; [lra|].
    unfold Rdiv. rewrite Rmult_assoc, Rinv_l by lra. lra.
  - apply Rmult_lt_reg_r with 4294967296; [lra|].
    unfold Rdiv. rewrite Rmult_assoc, Rinv_l by lra. lra.
Qed.

Lemma rng_calls_length (n : nat) : forall g, List.length (fst (rng_calls n g)) = n.
Proof.
  induction n as [|n IH]; intros g; cbn [rng_calls]; [reflexivity|].
  destruct (rng_call g) as [v g1]. specialize (IH g1).
  destruct (rng_calls n g1) as [vs g2]. cbn in *. now rewrite IH.
Qed.

Lemma rng_calls_range (n : nat) :
  forall g, Forall (fun v => 0 <= v < 1) (fst (rng_calls n g)).
Proof.
  induction n as [|n IH]; intros g; cbn [rng_calls]; [constructor|].
  pose proof (rng_call_range g) as Hv.
  destruct (rng_call g) as [v g1]. specialize (IH g1).
  destruct (rng_calls n g1) as [vs g2]. cbn in *. now constructor.
Qed.

Lemma rng_calls_prefix (n m : nat) :
  forall g, firstn n (fst (rng_calls (n + m) g)) = fst (rng_calls n g).
Proof.
  induction n as [|n IH]; intros g; [reflexivity|].
  cbn [Nat.add rng_calls].
  destruct (rng_call g) as [v g1]. specialize (IH g1).
  destruct (rng_calls (n + m) g1) as [vs g2].
  destruct (rng_calls n g1) as [ws g3]. cbn in *. now rewrite IH.
Qed.

(** C5. For every integer seed, each of the first [n] calls of the generator
    returned by [mulberry32 seed] returns (all [n] calls do) a value [v]
    with [0 <= v < 1]; the values depend on the seed and the number of the
    call only: a longer run from the same seed starts with the same values. *)
Theorem mulberry32_unit_interval (seed : Z) (n m : nat) :
  List.length (fst (rng_calls n (mulberry32 seed))) = n
  /\ Forall (fun v => 0 <= v < 1) (fst (rng_calls n (mulberry32 seed)))
  /\ firstn n (fst (rng_calls (n + m) (mulberry32 seed)))
     = fst (rng_calls n (mulberry32 seed)).
Proof.
  split; [apply rng_calls_length|].
  split; [apply rng_calls_range|apply rng_calls_prefix].
Qed.

(* ------------------------------------------------------------------ *)
(** *** [Array_sort]: sorted, and a permutation of its input *)

Section ArraySortSpec.
Variable A : Type.
Variable key : A -> R.

Lemma sort_insert_perm (a : A) (l : list A) :
  Permutation (a :: l) (sort_insert (key_cmp key) a l).
Proof.
  induction l as [|b l IH]; cbn [sort_insert]; [reflexivity|].
  destruct (Rlt_dec 0 (key_cmp key b a)); [reflexivity|].
  rewrite perm_swap. now apply perm_skip.
Qed.

Lemma sort_insert_sorted (a : A) (l : list A) :
  StronglySorted (key_le key) l ->
  StronglySorted (key_le key) (sort_insert (key_cmp key) a l).
Proof.
  induction 1 as [|b l Hs IH Hb]; cbn [sort_insert].
  - repeat constructor.
  - destruct (Rlt_dec 0 (key_cmp key b a)) as [Hlt|Hge].
    + assert (Hab : key a <= key b) by (unfold key_cmp in Hlt; lra).
      constructor; [now constructor|].
      constructor; [exact Hab|].
      eapply Forall_impl; [|exact Hb].
      unfold key_le; intros c Hc; lra.
    + assert (Hba : key b <= key a) by (unfold key_cmp in Hge; lra).
      constructor; [exact IH|].
      eapply Permutation_Forall; [apply sort_insert_perm|].
      constructor; assumption.
Qed.

Lemma fold_insert_perm (l acc : list A) :
  Permutation (acc ++ l)
    (fold_left (fun acc a => sort_insert (key_cmp key) a acc) l acc).
Proof.
  revert acc; induction l as [|a l IH]; intros acc; cbn [fold_left].
  - now rewrite app_nil_r.
  - rewrite <- IH. rewrite <- sort_insert_perm.
    symmetry. apply Permutation_middle.
Qed.

Lemma fold_insert_sorted (l acc : list A) :
  StronglySorted (key_le key) acc ->
  StronglySorted (key_le key)
    (fold_left (fun acc a => sort_insert (key_cmp key) a acc) l acc).
Proof.
  revert acc; induction l as [|a l IH]; intros acc Hacc; cbn [fold_left].
  - exact Hacc.
  - apply IH. now apply sort_insert_sorted.
Qed.

Lemma Array_sort_perm (l : list A) :
  Permutation l (Array_sort (key_cmp key) l).
Proof. exact (fold_insert_perm l []). Qed.

Lemma Array_sort_sorted (l : list A) :
  StronglySorted (key_le key) (Array_sort (key_cmp key) l).
Proof. apply fold_insert_sorted. constructor. Qed.
End ArraySortSpec.

(* ------------------------------------------------------------------ *)
(** *** [generateTrees] *)

Lemma generateTrees_perm (n : nat) (W H : R) :
  Permutation (generateTrees_loop n 0 W H (mulberry32 123456) [])
              (generateTrees n W H).
Proof.
  unfold generateTrees.
  exact (Array_sort_perm _ (fun a => INR (Tree.layer a)) _).
Qed.

(** C2. For every count [n] and all dimensions, the sequence returned by
    [generateTrees n W H] is sorted non-decreasing by parallax layer: every
    descriptor's layer is at most the layer of each descriptor after it. *)
Theorem generateTrees_sorted (n : nat) (W H : R) :
  StronglySorted layer_le (generateTrees n W H).
Proof.
  unfold generateTrees.
  pose proof (Array_sort_sorted _ (fun a => INR (Tree.layer a))
                (generateTrees_loop n 0 W H (mulberry32 123456) [])) as Hs.
  change (key_cmp (fun a => INR (Tree.layer a)))
    with (fun a b => INR (Tree.layer a) - INR (Tree.layer b)) in Hs.
  induction Hs as [|a l _ IH Ha]; constructor; [exact IH|].
  eapply Forall_impl; [|exact Ha].
  intros b Hb. unfold layer_le. unfold key_le in Hb. now apply INR_le.
Qed.

Lemma rng_skip_add (n m : nat) (g : Rng) :
  rng_skip (n + m) g = rng_skip n (rng_skip m g).
Proof. unfold rng_skip. apply Nat.iter_add. Qed.

Lemma rng_skip_succ_r (n : nat) (g : Rng) :
  rng_skip (S n) g = rng_skip n (rng_advance g).
Proof. unfold rng_skip. apply Nat.iter_succ_r. Qed.

Lemma generateTree_rng (i : nat) (W H : R) (g : Rng) :
  snd (generateTree i W H g) = rng_skip 5 g.
Proof. reflexivity. Qed.

Lemma generateTree_layer (i : nat) (W H : R) (g : Rng) :
  Tree.layer (fst (generateTree i W H g)) = (i mod 3)%nat.
Proof. reflexivity. Qed.

Lemma generateTree_height (i : nat) (W H : R) (g : Rng) :
  Tree.height (fst (generateTree i W H g))
  = nominal_height H (i mod 3) * (0.8 + fst (rng_call (rng_skip 2 g)) * 0.4).
Proof. reflexivity. Qed.

Lemma generateTree_baseY (i : nat) (W H : R) (g : Rng) :
  Tree.baseY (fst (generateTree i W H g))
  = nominal_baseY H (i mod 3) + (fst (rng_call (rng_skip 1 g)) - 0.5) * 20.
Proof. reflexivity. Qed.

Lemma generateTree_shape (i : nat) (W H : R) (g : Rng) :
  tree_shape H (fst (generateTree i W H g)).
Proof.
  unfold tree_shape.
  rewrite generateTree_layer, generateTree_height, generateTree_baseY.
  split; [apply Nat.mod_upper_bound; discriminate|].
  split; eexists; (split; [apply rng_call_range|reflexivity]).
Qed.

Lemma generateTrees_loop_spec (n : nat) :
  forall (i : nat) (W H : R) (g : Rng) (acc : list Tree.t),
    generateTrees_loop n i W H g acc
    = acc ++ map (fun k => fst (generateTree (i + k) W H (rng_skip (5 * k) g)))
               (seq 0 n).
Proof.
  induction n as [|n IH]; intros i W H g acc; cbn [generateTrees_loop].
  - cbn. now rewrite app_nil_r.
  - pose proof (generateTree_rng i W H g) as Hg.
    destruct (generateTree i W H g) as [tr g'] eqn:E. cbn [snd] in Hg. subst g'.
    rewrite IH. rewrite <- app_assoc. apply (f_equal (app acc)).
    cbn [seq map app]. rewrite Nat.add_0_r, Nat.mul_0_r.
    change (rng_skip 0 g) with g. rewrite E. cbn [fst].
    apply (f_equal (cons tr)).
    rewrite <- seq_shift, map_map.
    apply map_ext. intros k.
    replace (i + S k)%nat with (S i + k)%nat by lia.
    replace (5 * S k)%nat with (5 * k + 5)%nat by lia.
    now rewrite rng_skip_add.
Qed.

Lemma tree_at_generated (k n : nat) (W H : R) :
  (k < n)%nat -> In (tree_at k W H) (generateTrees n W H).
Proof.
  intros Hk.
  eapply Permutation_in; [apply generateTrees_perm|].
  rewrite generateTrees_loop_spec. cbn [app].
  apply in_map_iff. exists k. split; [reflexivity|].
  apply in_seq. lia.
Qed.

Lemma generateTrees_shape (n : nat) (W H : R) (tr : Tree.t) :
  In tr (generateTrees n W H) -> tree_shape H tr.
Proof.
  intros Hin.
  eapply Permutation_in in Hin; [|symmetry; apply generateTrees_perm].
  rewrite generateTrees_loop_spec in Hin. cbn [app] in Hin.
  apply in_map_iff in Hin. destruct Hin as (k & <- & _).
  apply generateTree_shape.
Qed.

Lemma generateTrees_length (n : nat) (W H : R) :
  List.length (generateTrees n W H) = n.
Proof.
  rewrite <- (Permutation_length (generateTrees_perm n W H)).
  rewrite generateTrees_loop_spec. cbn [app].
  now rewrite length_map, length_seq.
Qed.

(** The third value drawn for a tree (its height factor), as the numerator
    computed by the generator. *)
Lemma tree_at_height (k : nat) (W H : R) :
  Tree.height (tree_at k W H)
  = nominal_height H (k mod 3)
    * (0.8 + IZR (mulberry32_mix (rng_skip (5 * k + 3) (mulberry32 123456)))
             / 4294967296 * 0.4).
Proof.
  unfold tree_at. rewrite generateTree_height. unfold rng_call. cbn [fst].
  replace (5 * k + 3)%nat with (S (2 + 5 * k)) by lia.
  rewrite <- rng_skip_add. reflexivity.
Qed.

Lemma height_factor_8 :
  mulberry32_mix (rng_skip (5 * 8 + 3) (mulberry32 123456)) = 134431106%Z.
Proof. vm_compute. reflexivity. Qed.

Lemma height_factor_16 :
  mulberry32_mix (rng_skip (5 * 16 + 3) (mulberry32 123456)) = 4109991832%Z.
Proof. vm_compute. reflexivity. Qed.

Lemma first_value :
  mulberry32_mix (rng_skip 1 (mulberry32 123456)) = 1642107918%Z.
Proof. vm_compute. reflexivity. Qed.

(** C8, refuted as stated: in [generateTrees 24 1280 720] the descriptor
    pushed at index 8 is of layer 2 and the one pushed at index 16 of layer
    1, yet the former is not the taller. *)
Lemma generateTrees_height_not_monotone :
  exists a b : Tree.t,
    In a (generateTrees 24 1280 720) /\ In b (generateTrees 24 1280 720)
    /\ (Tree.layer a > Tree.layer b)%nat
    /\ ~ (Tree.height a > Tree.height b).
Proof.
  exists (tree_at 8 1280 720), (tree_at 16 1280 720).
  split; [apply tree_at_generated; lia|].
  split; [apply tree_at_generated; lia|].
  split; [cbn; lia|].
  rewrite !tree_at_height, height_factor_8, height_factor_16.
  unfold nominal_height.
  change (8 mod 3)%nat with 2%nat. change (16 mod 3)%nat with 1%nat.
  change (INR 2) with (1 + 1). change (INR 1) with 1.
  lra.
Qed.

Lemma tree_shape_height_bounds (H : R) (tr : Tree.t) :
  0 < H -> tree_shape H tr ->
  nominal_height H (Tree.layer tr) * 0.8 <= Tree.height tr
  /\ Tree.height tr < nominal_height H (Tree.layer tr) * 1.2.
Proof.
  intros HH (Hl & _ & r & Hr & ->).
  assert (Hn : 0 < nominal_height H (Tree.layer tr)).
  { unfold nominal_height. apply Rmult_lt_0_compat; [exact HH|].
    pose proof (pos_INR (Tree.layer tr)). lra. }
  split; nra.
Qed.

Lemma nominal_height_layers (H : R) (l : nat) :
  (l < 3)%nat ->
  (l = 0%nat /\ nominal_height H l = H * 0.12)
  \/ (l = 1%nat /\ nominal_height H l = H * 0.2)
  \/ (l = 2%nat /\ nominal_height H l = H * 0.28).
Proof.
  intros Hl. unfold nominal_height.
  destruct l as [|[|[|l]]]; [left|right; left|right; right|lia];
    (split; [reflexivity|]); cbn [INR]; lra.
Qed.

Lemma nominal_baseY_step (H : R) (la lb : nat) :
  0 <= H -> (lb < la)%nat ->
  nominal_baseY H lb + H * 0.08 <= nominal_baseY H la.
Proof.
  intros HH Hlt. unfold nominal_baseY.
  assert (Hi : INR lb + 1 <= INR la).
  { rewrite <- S_INR. apply le_INR. lia. }
  nra.
Qed.

(** C8, amended. For every pair of descriptors of one call of
    [generateTrees] with [H >= 250]: if one is of a strictly nearer layer
    than the other, its base vertical position is strictly greater, and so
    is the size of its layer before the random factor; the height of each
    of the two is at least 0.8 and less than 1.2 times the size of its
    layer, so the height itself is strictly greater when the other
    descriptor is of the farthest layer. *)
Theorem generateTrees_depth_scale (n : nat) (W H : R) (a b : Tree.t) :
  250 <= H ->
  In a (generateTrees n W H) -> In b (generateTrees n W H) ->
  (Tree.layer a > Tree.layer b)%nat ->
  Tree.baseY a > Tree.baseY b
  /\ nominal_height H (Tree.layer a) > nominal_height H (Tree.layer b)
  /\ nominal_height H (Tree.layer a) * 0.8 <= Tree.height a
       < nominal_height H (Tree.layer a) * 1.2
  /\ nominal_height H (Tree.layer b) * 0.8 <= Tree.height b
       < nominal_height H (Tree.layer b) * 1.2
  /\ (Tree.layer b = 0%nat -> Tree.height a > Tree.height b).
Proof.
  intros HH Ha Hb Hlt.
  apply generateTrees_shape in Ha. apply generateTrees_shape in Hb.
  assert (HH0 : 0 < H) by lra.
  pose proof (tree_shape_height_bounds H a HH0 Ha) as Hha.
  pose proof (tree_shape_height_bounds H b HH0 Hb) as Hhb.
  destruct Ha as (Hla & (ra & Hra & Hya) & _).
  destruct Hb as (Hlb & (rb & Hrb & Hyb) & _).
  pose proof (nominal_baseY_step H (Tree.layer a) (Tree.layer b)) as Hstep.
  assert (Hs : nominal_baseY H (Tree.layer b) + H * 0.08
               <= nominal_baseY H (Tree.layer a)) by (apply Hstep; [lra|lia]).
  pose proof (nominal_height_layers H _ Hla) as Na.
  pose proof (nominal_height_layers H _ Hlb) as Nb.
  split; [rewrite Hya, Hyb; lra|].
  split.
  - destruct Na as [[Ea Na]|[[Ea Na]|[Ea Na]]];
      destruct Nb as [[Eb Nb]|[[Eb Nb]|[Eb Nb]]];
      rewrite Na, Nb; try lra; lia.
  - split; [exact Hha|]. split; [exact Hhb|].
    intros Hb0.
    destruct Nb as [[Eb Nb]|[[Eb Nb]|[Eb Nb]]]; try lia.
    destruct Na as [[Ea Na]|[[Ea Na]|[Ea Na]]]; try lia;
      rewrite Na in Hha; rewrite Nb in Hhb; lra.
Qed.

Lemma generateTrees_depth_scale_witness :
  exists a b : Tree.t,
    (Tree.layer a > Tree.layer b)%nat
    /\ Tree.baseY a > Tree.baseY b
    /\ Tree.height a > Tree.height b.
Proof.
  exists (tree_at 1 1280 720), (tree_at 0 1280 720).
  assert (Hlt : (Tree.layer (tree_at 1 1280 720)
                 > Tree.layer (tree_at 0 1280 720))%nat) by (cbn; lia).
  assert (HH : 250 <= 720) by lra.
  assert (Ha : In (tree_at 1 1280 720) (generateTrees 24 1280 720))
    by (apply tree_at_generated; lia).
  assert (Hb : In (tree_at 0 1280 720) (generateTrees 24 1280 720))
    by (apply tree_at_generated; lia).
  destruct (generateTrees_depth_scale 24 1280 720 _ _ HH Ha Hb Hlt)
    as (Hy & _ & _ & _ & Hh).
  split; [exact Hlt|]. split; [exact Hy|exact (Hh eq_refl)].
Defined.

(* ------------------------------------------------------------------ *)
(** *** The remainder operator *)

Lemma Int_part_plus1 (r : R) : Int_part (r + 1) = (Int_part r + 1)%Z.
Proof.
  symmetry. apply Int_part_spec.
  destruct (base_Int_part r) as [Hlo Hhi].
  rewrite plus_IZR. lra.
Qed.

Lemma Int_part_small (r : R) : 0 <= r < 1 -> Int_part r = 0%Z.
Proof. intros Hr. symmetry. apply Int_part_spec. lra. Qed.

Lemma trunc_small (q : R) : -1 < q < 1 -> trunc q = 0%Z.
Proof.
  intros Hq. unfold trunc.
  destruct (Rle_dec 0 q).
  - apply Int_part_small. lra.
  - rewrite Int_part_small; [reflexivity|lra].
Qed.

Lemma trunc_plus1 (q : R) : 0 <= q -> trunc (q + 1) = (trunc q + 1)%Z.
Proof.
  intros Hq. unfold trunc.
  destruct (Rle_dec 0 q); [|lra].
  destruct (Rle_dec 0 (q + 1)); [|lra].
  apply Int_part_plus1.
Qed.



Lemma js_rem_0_l (b : R) : js_rem 0 b = 0.
Proof.
  unfold js_rem. unfold Rdiv. rewrite Rmult_0_l.
  rewrite trunc_small; lra.
Qed.

Lemma js_rem_add_period (a b : R) :
  0 < b -> 0 <= a -> js_rem (a + b) b = js_rem a b.
Proof.
  intros Hb Ha. unfold js_rem.
  replace ((a + b) / b) with (a / b + 1) by (field; lra).
  rewrite trunc_plus1.
  - rewrite plus_IZR. lra.
  - apply Rmult_le_reg_r with b; [exact Hb|].
    unfold Rdiv. rewrite Rmult_assoc, Rinv_l by lra. lra.
Qed.


Lemma js_rem_self (b : R) : 0 < b -> js_rem b b = 0.
Proof.
  intros Hb. replace b with (0 + b) at 1 by lra.
  rewrite js_rem_add_period by lra. apply js_rem_0_l.
Qed.

(* ------------------------------------------------------------------ *)
(** *** The horizontal position of the cat *)

(* ------------------------------------------------------------------ *)
(** *** The horizontal scroll of the forest *)



Lemma tree_at_x (k : nat) (W H : R) :
  Tree.x (tree_at k W H)
  = IZR (mulberry32_mix (rng_skip (5 * k + 1) (mulberry32 123456)))
    / 4294967296 * W * 2 - W * 0.5.
Proof.
  unfold tree_at.
  replace (5 * k + 1)%nat with (S (5 * k)) by lia.
  reflexivity.
Qed.


(* ------------------------------------------------------------------ *)
(** *** The pose of the cat *)

Lemma drawCat_body_bob (t W H : R) :
  body_bob H (drawCat t W H) = sin (t * 6) * 4.
Proof. unfold body_bob, drawCat. cbn [nth app cmd_point snd]. ring. Qed.

Lemma drawCat_tail_curl (t W H : R) :
  tail_curl (drawCat t W H)
  = (-40 - gait_phase t * 8, -60 - gait_phase t * 4).
Proof.
  unfold tail_curl, drawCat, gait_phase.
  cbn [nth app cmd_point cmd_control snd]. f_equal; ring.
Qed.

Lemma drawCat_leg_swings (t W H : R) :
  map (fun i => leg_swing i (drawCat t W H)) (seq 0 4)
  = [gait_phase t * 12; - gait_phase t * 12;
     gait_phase t * 12; - gait_phase t * 12].
Proof.
  unfold leg_swing, drawCat, gait_phase.
  cbn [map seq nth app flat_map cmd_point fst Nat.add Nat.mul Nat.eqb
       Nat.modulo Nat.divmod snd Nat.sub].
  repeat (f_equal; try ring).
Qed.

(** C7, refuted as stated: at elapsed times [0] and [PI / 8] the gait phase
    is the same (and with it every leg swing and the tail curl), but the
    body bob is not: the bob does not follow the gait-phase sinusoid. *)
Lemma body_bob_not_driven_by_gait_phase :
  gait_phase 0 = gait_phase (PI / 8)
  /\ map (fun i => leg_swing i (drawCat 0 1280 720)) (seq 0 4)
     = map (fun i => leg_swing i (drawCat (PI / 8) 1280 720)) (seq 0 4)
  /\ tail_curl (drawCat 0 1280 720) = tail_curl (drawCat (PI / 8) 1280 720)
  /\ body_bob 720 (drawCat 0 1280 720)
     <> body_bob 720 (drawCat (PI / 8) 1280 720).
Proof.
  assert (Hg : gait_phase 0 = gait_phase (PI / 8)).
  { unfold gait_phase.
    replace (0 * 8) with 0 by ring. replace (PI / 8 * 8) with PI by field.
    now rewrite sin_0, sin_PI. }
  split; [exact Hg|].
  split; [now rewrite !drawCat_leg_swings, Hg|].
  split; [now rewrite !drawCat_tail_curl, Hg|].
  rewrite !drawCat_body_bob.
  replace (0 * 6) with 0 by ring. rewrite sin_0.
  assert (Hpos : 0 < sin (PI / 8 * 6)).
  { pose proof PI_RGT_0. apply sin_gt_0; lra. }
  lra.
Qed.

(** C7, amended. Two sinusoids of the elapsed time alone pose the cat,
    whatever its position and the surface: the gait phase [sin (8 t)]
    swings the legs, legs 0 and 2 against legs 1 and 3, and curls the tail;
    a second sinusoid, [4 sin (6 t)], is the vertical bob of the body. *)
Theorem cat_pose_sinusoids (t W H : R) :
  map (fun i => leg_swing i (drawCat t W H)) (seq 0 4)
  = [gait_phase t * 12; - gait_phase t * 12;
     gait_phase t * 12; - gait_phase t * 12]
  /\ tail_curl (drawCat t W H)
     = (-40 - gait_phase t * 8, -60 - gait_phase t * 4)
  /\ body_bob H (drawCat t W H) = sin (t * 6) * 4.
Proof.
  split; [apply drawCat_leg_swings|].
  split; [apply drawCat_tail_curl|apply drawCat_body_bob].
Qed.

(* ------------------------------------------------------------------ *)
(** *** The frame does not depend on the style state it starts from *)

Lemma exec_agree (k : known) (op : cmd) (c1 c2 : ctx) :
  agree k c1 c2 -> reads_ok k op = true ->
  agree (after k op) (exec c1 op) (exec c2 op).
Proof.
  intros (Hs & Hf & Hst & Hw & Hc & Hp) Hok.
  destruct op; cbn [reads_ok] in Hok;
    repeat match goal with
           | H : _ && _ = true |- _ => apply andb_prop in H; destruct H
           end;
    unfold agree; cbn [exec after surface fillStyle strokeStyle lineWidth
                       lineCap path kFill kStroke kWidth kCap kPath];
    repeat split; intros;
    repeat match goal with
           | H : ?b = true -> _, H' : ?b = true |- _ => specialize (H H')
           end;
    congruence.
Qed.

Lemma check_sound (ops : list cmd) :
  forall k k', check k ops = Some k' -> carries k ops k'.
Proof.
  induction ops as [|op ops IH]; intros k k' Hc c1 c2 Ha; cbn [check] in Hc.
  - injection Hc as <-. exact Ha.
  - destruct (reads_ok k op) eqn:Hok; [|discriminate].
    unfold run; cbn [fold_left].
    apply (IH _ _ Hc). now apply exec_agree.
Qed.

Lemma agree_weaken (k k' : known) (c1 c2 : ctx) :
  known_le k' k = true -> agree k c1 c2 -> agree k' c1 c2.
Proof.
  unfold known_le. intros Hle (Hs & Hf & Hst & Hw & Hc & Hp).
  repeat (apply andb_prop in Hle; destruct Hle as [Hle ?]).
  unfold agree. repeat split; [exact Hs|..]; intros Hk;
    match goal with
    | H : implb ?a ?b = true |- _ =>
        match type of Hk with a = true => rewrite Hk in H; cbn in H end
    end; auto.
Qed.

Lemma carries_weaken (k k1 k2 : known) (ops : list cmd) :
  carries k ops k1 -> known_le k2 k1 = true -> carries k ops k2.
Proof. intros Hc Hle c1 c2 Ha. eapply agree_weaken; eauto. Qed.

Lemma carries_app (k k1 k2 : known) (l1 l2 : list cmd) :
  carries k l1 k1 -> carries k1 l2 k2 -> carries k (l1 ++ l2) k2.
Proof.
  intros H1 H2 c1 c2 Ha. unfold run. rewrite !fold_left_app.
  apply H2. apply H1. exact Ha.
Qed.

Lemma carries_flat_map {A : Type} (k : known) (f : A -> list cmd) (xs : list A) :
  (forall x, carries k (f x) k) -> carries k (flat_map f xs) k.
Proof.
  intros Hf. induction xs as [|x xs IH]; cbn [flat_map].
  - intros c1 c2 Ha. exact Ha.
  - eapply carries_app; [apply Hf|exact IH].
Qed.

Lemma carries_path_calls (k : known) (ops : list cmd) :
  forallb path_call ops = true -> carries k ops k.
Proof.
  induction ops as [|op ops IH]; cbn [forallb]; intros Hp c1 c2 Ha.
  - exact Ha.
  - apply andb_prop in Hp. destruct Hp as [Hop Hops].
    unfold run; cbn [fold_left]. apply (IH Hops).
    assert (Hok : reads_ok k op = true) by (destruct op; (reflexivity || discriminate)).
    assert (Hk : after k op = k) by (destruct op; (reflexivity || discriminate)).
    pose proof (exec_agree k op c1 c2 Ha Hok) as Hx.
    rewrite Hk in Hx. exact Hx.
Qed.

Lemma drawHills_carries (W H t : R) : carries K_fill (drawHills W H t) K_fill.
Proof.
  unfold drawHills. apply carries_flat_map. intros i.
  apply carries_weaken with (k1 := mkKnown true false false false true);
    [|reflexivity].
  eapply carries_app; [apply check_sound; reflexivity|].
  eapply carries_app.
  - apply carries_path_calls.
    induction (hill_xs W) as [|x xs IH]; [reflexivity|exact IH].
  - apply check_sound. reflexivity.
Qed.

Lemma drawTree_carries (W H t : R) (tr : Tree.t) :
  carries K_fill (drawTree W H t tr) K_fill.
Proof.
  apply carries_weaken with (k1 := mkKnown true false false false true);
    [|reflexivity].
  apply check_sound. unfold drawTree.
  destruct (treeScreenX W t tr); reflexivity.
Qed.

Lemma drawForest_carries (W H t : R) (trees : list Tree.t) :
  carries K_fill (drawForest W H trees t) K_fill.
Proof.
  unfold drawForest. apply carries_flat_map. intros tr. apply drawTree_carries.
Qed.

Lemma drawCat_carries (t W H : R) : carries K_fill (drawCat t W H) K_all.
Proof. apply check_sound. reflexivity. Qed.

Lemma drawGrass_carries (W H t : R) : carries K_all (drawGrass W H t) K_all.
Proof. apply check_sound. reflexivity. Qed.

Lemma renderFrame_carries (e W H : R) (trees : list Tree.t) :
  carries K_none (renderFrame e W H trees) K_all.
Proof.
  unfold renderFrame.
  eapply carries_app; [apply check_sound with (k' := K_fill); reflexivity|].
  eapply carries_app; [apply drawHills_carries|].
  eapply carries_app; [apply drawForest_carries|].
  eapply carries_app; [apply check_sound with (k' := K_fill); reflexivity|].
  eapply carries_app; [apply drawCat_carries|apply drawGrass_carries].
Qed.

(** C1. For every elapsed time, width, height and list of tree
    descriptors, rendering the frame on two surfaces with the same content
    (two fresh surfaces in particular), whatever style state their contexts
    were left in, paints the same sequence of primitives under the same
    styles: the frame is a function of its arguments alone.  The same holds
    of the frame callback [render] run from one animation state at one
    timestamp. *)
Theorem renderFrame_deterministic
    (e W H : R) (trees : list Tree.t) (t : R) (a : Anim.t) (c1 c2 : ctx) :
  surface c1 = surface c2 ->
  surface (run c1 (renderFrame e W H trees))
  = surface (run c2 (renderFrame e W H trees))
  /\ fst (fst (render trees t a c1)) = fst (fst (render trees t a c2))
  /\ surface (snd (fst (render trees t a c1)))
     = surface (snd (fst (render trees t a c2)))
  /\ snd (render trees t a c1) = snd (render trees t a c2).
Proof.
  intros Hs.
  assert (Hf : forall e W H,
             surface (run c1 (renderFrame e W H trees))
             = surface (run c2 (renderFrame e W H trees))).
  { intros e' W' H'. apply (renderFrame_carries e' W' H' trees c1 c2).
    unfold agree, K_none; cbn. repeat split; (exact Hs || discriminate). }
  split; [apply Hf|].
  unfold render. destruct (Anim.running a); cbn [negb fst snd].
  - repeat split. apply Hf.
  - repeat split. exact Hs.
Qed.

Lemma renderFrame_deterministic_witness :
  surface (run fresh_ctx (renderFrame 5 1280 720 (generateTrees 24 1280 720)))
  = surface
      (run (mkCtx (Css "#2a5f2a") (Css "#ddd") 2 "round" [ClosePath] [])
         (renderFrame 5 1280 720 (generateTrees 24 1280 720))).
Proof.
  apply (renderFrame_deterministic 5 1280 720 (generateTrees 24 1280 720)
           5000 (Anim.mk 0 0 true 1280 720) fresh_ctx
           (mkCtx (Css "#2a5f2a") (Css "#ddd") 2 "round" [ClosePath] [])).
  reflexivity.
Defined.

Lemma render_paints_frame (trees : list Tree.t) (t : R) (a : Anim.t) (c : ctx) :
  Anim.running a = true -> Anim.startTime a <> 0 ->
  render trees t a c
  = (a, run c (renderFrame ((t - Anim.startTime a) / 1000)
                 (Anim.width a) (Anim.height a) trees), true).
Proof.
  intros Hr Hs. unfold render. rewrite Hr. cbn [negb].
  destruct (Req_dec_T (Anim.startTime a) 0); [contradiction|reflexivity].
Qed.

(* ------------------------------------------------------------------ *)
(** *** The capture controller *)

Lemma pickMimeType_none (b : Browser) (l : list string) :
  (forall mt, In mt l -> hasMediaRecorder b && isTypeSupported b mt = false) ->
  pickMimeType b l = ""%string.
Proof.
  induction l as [|mt l IH]; intros Hno; cbn [pickMimeType]; [reflexivity|].
  rewrite (Hno mt (or_introl eq_refl)).
  apply IH. intros mt' Hin. apply Hno. now right.
Qed.

Lemma handleRecord_anim (b : Browser) (p : Page.t) :
  Page.anim (handleRecord b p) = Page.anim p.
Proof.
  unfold handleRecord.
  destruct (canvasMounted b), (hasCaptureStream b); cbn [negb]; try reflexivity.
  destruct (String.eqb _ _); reflexivity.
Qed.

Lemma handleRecord_durationSec (b : Browser) (p : Page.t) :
  Page.durationSec (handleRecord b p) = Page.durationSec p.
Proof.
  unfold handleRecord.
  destruct (canvasMounted b), (hasCaptureStream b); cbn [negb]; try reflexivity.
  destruct (String.eqb _ _); reflexivity.
Qed.

(** The three ways [handleRecord] can end its synchronous part. *)
Lemma handleRecord_cases (b : Browser) (p : Page.t) :
  (Page.recState (handleRecord b p) = Page.recState p
   /\ Page.sessions (handleRecord b p) = Page.sessions p)
  \/ (Page.recState (handleRecord b p) = error
      /\ Page.sessions (handleRecord b p) = Page.sessions p)
  \/ (Page.recState (handleRecord b p) = recording
      /\ Page.sessions (handleRecord b p)
         = Page.sessions p
           ++ [mkSession (pickMimeType b mimeTypes) []
                 (js_mul (Page.durationSec p) (Fin 1000)) AwaitWait]).
Proof.
  unfold handleRecord.
  destruct (canvasMounted b); cbn [negb]; [|left; split; reflexivity].
  destruct (hasCaptureStream b); cbn [negb]; [|right; left; split; reflexivity].
  destruct (String.eqb _ _); [right; left|right; right]; split; reflexivity.
Qed.

(** C9. With the canvas mounted, if it has no [captureStream], or no entry
    of the preference list is a supported format, [handleRecord] sets the
    status to [error] and a non-empty message, starts no recorder, and
    leaves the animation state, its running flag included, as it was. *)
Theorem handleRecord_unsupported (b : Browser) (p : Page.t) :
  canvasMounted b = true ->
  hasCaptureStream b = false
  \/ (forall mt, In mt mimeTypes ->
        hasMediaRecorder b && isTypeSupported b mt = false) ->
  Page.recState (handleRecord b p) = error
  /\ (exists m, Page.errorMsg (handleRecord b p) = Some m /\ m <> ""%string)
  /\ Page.anim (handleRecord b p) = Page.anim p
  /\ Anim.running (Page.anim (handleRecord b p)) = Anim.running (Page.anim p)
  /\ Page.sessions (handleRecord b p) = Page.sessions p.
Proof.
  intros Hc Hno. rewrite handleRecord_anim.
  unfold handleRecord. rewrite Hc. cbn [negb].
  destruct (hasCaptureStream b) eqn:Hcs; cbn [negb].
  - destruct Hno as [Hno|Hno]; [discriminate|].
    rewrite (pickMimeType_none b mimeTypes Hno). cbn [String.eqb].
    repeat split. eexists. split; [reflexivity|discriminate].
  - repeat split. eexists. split; [reflexivity|discriminate].
Qed.

Lemma handleRecord_unsupported_witness :
  Page.recState
    (handleRecord browser_no_capture
       (Page.effect_start Page.init)) = error
  /\ Anim.running
       (Page.anim
          (handleRecord browser_no_capture
             (Page.effect_start Page.init))) = true.
Proof.
  destruct (handleRecord_unsupported
              browser_no_capture
              (Page.effect_start Page.init) eq_refl (or_introl eq_refl))
    as (Hs & _ & _ & Hr & _).
  split; [exact Hs|exact Hr].
Defined.

Lemma steps_snoc (p : Page.t) (es : list event) (e : event) :
  steps p (es ++ [e]) = step (steps p es) e.
Proof. unfold steps. now rewrite fold_left_app. Qed.

Lemma afterWait_cases (i : nat) (p : Page.t) :
  afterWait i p = p
  \/ (Page.recState (afterWait i p) = processing
      /\ exists s, nth_error (Page.sessions p) i = Some s).
Proof.
  unfold afterWait. destruct (nth_error (Page.sessions p) i) as [s|]; [|now left].
  destruct (at_await s); [right|left|left]; try reflexivity.
  split; [reflexivity|now exists s].
Qed.

Lemma onstop_cases (i : nat) (p : Page.t) :
  onstop i p = p
  \/ (Page.recState (onstop i p) = done
      /\ exists s, nth_error (Page.sessions p) i = Some s).
Proof.
  unfold onstop. destruct (nth_error (Page.sessions p) i) as [s|]; [|now left].
  destruct (at_await s); [left|right|left]; try reflexivity.
  split; [reflexivity|now exists s].
Qed.

Lemma ondataavailable_recState (i : nat) (d : option Blob) (p : Page.t) :
  Page.recState (ondataavailable i d p) = Page.recState p.
Proof.
  unfold ondataavailable.
  destruct (nth_error (Page.sessions p) i), d as [d|]; try reflexivity.
  destruct (0 <? blob_size d)%nat; reflexivity.
Qed.

Lemma update_nth_nil_inv (i : nat) (s : Session) (l : list Session) :
  update_nth i s l = [] -> l = [].
Proof. destruct l, i; cbn; congruence. Qed.

(** The status is [idle] only while no invocation of [handleRecord] has
    started a recorder. *)
Lemma idle_no_sessions (es : list event) :
  Page.recState (steps Page.init es) = idle ->
  Page.sessions (steps Page.init es) = [].
Proof.
  induction es as [|e es IH] using rev_ind; [reflexivity|].
  rewrite steps_snoc. set (p := steps Page.init es) in *.
  destruct e as [b|i|i|i d|i m|v]; cbn [step].
  - destruct (button_disabled p) eqn:Hd.
    + exact IH.
    + destruct (handleRecord_cases b p) as [[-> ->]|[[-> _]|[-> _]]];
        [exact IH|discriminate..].
  - destruct (afterWait_cases i p) as [->|[-> _]]; [exact IH|discriminate].
  - destruct (onstop_cases i p) as [->|[-> _]]; [exact IH|discriminate].
  - rewrite ondataavailable_recState. intros Hi. specialize (IH Hi).
    unfold ondataavailable. rewrite IH.
    destruct i; cbn [nth_error]; exact IH.
  - unfold onerror. destruct (nth_error (Page.sessions p) i); [discriminate|exact IH].
  - exact IH.
Qed.

(** C6, refuted as stated: pressing Record on the initial page in a browser
    whose canvas has no [captureStream] moves the status from [idle]
    directly to [error]. *)
Lemma idle_to_error_directly :
  Page.recState Page.init = idle
  /\ Page.recState
       (step Page.init (Click browser_no_capture))
     = error.
Proof. split; reflexivity. Qed.

(* ------------------------------------------------------------------ *)
(** *** The recording duration *)

Lemma clamp_in_1_60 (v : jsnum) :
  v <> NaN -> in_1_60 (Math_max (Fin 1) (Math_min (Fin 60) v)).
Proof.
  intros Hv. destruct v as [|[|]|r]; [contradiction|..]; cbn.
  - lra.
  - unfold Rmax. destruct (Rle_dec 1 60); lra.
  - unfold Rmax, Rmin.
    destruct (Rle_dec 60 r); destruct (Rle_dec 1 _); lra.
Qed.

Lemma clamp_integer (v : jsnum) :
  is_integer v -> is_integer (Math_max (Fin 1) (Math_min (Fin 60) v)).
Proof.
  destruct v as [|[|]|r]; cbn; try contradiction.
  intros [z Hz]. unfold Rmax, Rmin.
  destruct (Rle_dec 60 r); destruct (Rle_dec 1 _);
    first [now exists 60%Z | now exists 1%Z | now exists z].
Qed.

Lemma Forall_update_nth (P : Session -> Prop) (i : nat) (s : Session)
    (l : list Session) :
  P s -> Forall P l -> Forall P (update_nth i s l).
Proof.
  intros Hs Hl. revert i. induction Hl as [|s0 l H0 Hl IH]; intros i.
  - destruct i; constructor.
  - destruct i; cbn [update_nth]; constructor; auto.
Qed.

Lemma nth_error_Forall (P : Session -> Prop) (i : nat) (s : Session)
    (l : list Session) :
  Forall P l -> nth_error l i = Some s -> P s.
Proof.
  intros Hl Hn. apply nth_error_In in Hn.
  rewrite Forall_forall in Hl. now apply Hl.
Qed.

(** One step keeps the stored duration in range and the waits of the
    sessions between one and sixty seconds. *)
Lemma step_duration_inv (p : Page.t) (e : event) :
  numeric_input e = true ->
  in_1_60 (Page.durationSec p) /\ Forall waits_1_to_60_s (Page.sessions p) ->
  in_1_60 (Page.durationSec (step p e))
  /\ Forall waits_1_to_60_s (Page.sessions (step p e)).
Proof.
  intros Hne [Hd Hs].
  destruct e as [b|i|i|i d|i m|v]; cbn [step].
  - destruct (button_disabled p); [now split|].
    rewrite handleRecord_durationSec. split; [exact Hd|].
    destruct (handleRecord_cases b p) as [[_ ->]|[[_ ->]|[_ ->]]]; try exact Hs.
    apply Forall_app. split; [exact Hs|]. constructor; [|constructor].
    unfold waits_1_to_60_s; cbn [waitMs].
    destruct (Page.durationSec p) as [| |r]; cbn in Hd |- *; try contradiction.
    lra.
  - unfold afterWait.
    destruct (nth_error (Page.sessions p) i) as [s|] eqn:Hn; [|now split].
    destruct (at_await s); try now split.
    split; [exact Hd|]. cbn [Page.sessions Page.setSessions Page.setRecState].
    apply Forall_update_nth; [|exact Hs].
    exact (nth_error_Forall _ i s _ Hs Hn).
  - unfold onstop.
    destruct (nth_error (Page.sessions p) i) as [s|] eqn:Hn; [|now split].
    destruct (at_await s); try now split.
    split; [exact Hd|].
    cbn [Page.sessions Page.setSessions Page.setRecState Page.setVideoUrl].
    apply Forall_update_nth; [|exact Hs].
    exact (nth_error_Forall _ i s _ Hs Hn).
  - unfold ondataavailable.
    destruct (nth_error (Page.sessions p) i) as [s|] eqn:Hn; [|now split].
    destruct d as [d|]; [|now split].
    destruct (0 <? blob_size d)%nat; [|now split].
    split; [exact Hd|]. cbn [Page.sessions Page.setSessions].
    apply Forall_update_nth; [|exact Hs].
    exact (nth_error_Forall _ i s _ Hs Hn).
  - unfold onerror.
    destruct (nth_error (Page.sessions p) i); now split.
  - split; [|exact Hs].
    cbn [onDurationChange Page.durationSec Page.setDurationSec].
    apply clamp_in_1_60. intros ->. discriminate.
Qed.

(** C10, refuted as stated: after the input is changed to [5.5] the stored
    duration is [5.5], which is not an integer. *)
Lemma duration_not_integer :
  Page.durationSec (onDurationChange (Fin 5.5) Page.init) = Fin 5.5
  /\ ~ is_integer (Page.durationSec (onDurationChange (Fin 5.5) Page.init)).
Proof.
  assert (E : Page.durationSec (onDurationChange (Fin 5.5) Page.init) = Fin 5.5).
  { cbn. f_equal. rewrite Rmin_right by lra. apply Rmax_right. lra. }
  split; [exact E|].
  rewrite E. cbn. intros [z Hz].
  assert (H5 : IZR 5 < IZR z) by (rewrite <- Hz; lra).
  assert (H6 : IZR z < IZR 6) by (rewrite <- Hz; lra).
  apply lt_IZR in H5. apply lt_IZR in H6. lia.
Qed.


(* ================================================================== *)
(** * Further properties of the drawing code *)

(* ------------------------------------------------------------------ *)
(** *** [noise2D] and [drawBlob] *)

(** X1. [noise2D] returns a value of the closed interval [0, 1] for all
    arguments. *)
Theorem noise2D_range (x y : R) : 0 <= noise2D x y <= 1.
Proof.
  unfold noise2D.
  pose proof (SIN_bound (x * 1.3 + y * 0.7)) as [Hs1 Hs2].
  pose proof (COS_bound (x * 0.7 - y * 1.1)) as [Hc1 Hc2].
  split; nra.
Qed.

Lemma noise2D_unit (x y : R) : 0 <= noise2D x y <= 1.
Proof.
  unfold noise2D.
  pose proof (SIN_bound (x * 1.3 + y * 0.7)) as [Hs1 Hs2].
  pose proof (COS_bound (x * 0.7 - y * 1.1)) as [Hc1 Hc2].
  split; nra.
Qed.

Lemma blob_radius_bound (c w n : R) :
  0 <= w -> -1 <= c <= 1 -> 0 <= n <= 1 ->
  - (0.55 * w) <= c * w * (0.45 + 0.1 * n) <= 0.55 * w.
Proof.
  intros Hw Hc Hn.
  assert (H1 : 0 <= w * (0.45 + 0.1 * n)) by nra.
  assert (H2 : w * (0.45 + 0.1 * n) <= 0.55 * w) by nra.
  rewrite Rmult_assoc. split; nra.
Qed.

Lemma drawBlob_points (x y w h : R) (op : cmd) :
  In op (drawBlob x y w h) ->
  op = BeginPath \/ op = ClosePath \/ op = Fill
  \/ exists a : R,
       cmd_point op
       = (x + w * 0.5 + cos a * w * (0.45 + 0.1 * noise2D (cos a) (sin a)),
          y + h * 0.5 + sin a * h * (0.45 + 0.1 * noise2D (sin a) (cos a)))
       /\ path_call op = true.
Proof.
  unfold drawBlob. intros Hin.
  apply in_app_or in Hin. destruct Hin as [[<-|[]]|Hin]; [now left|].
  apply in_app_or in Hin. destruct Hin as [Hin|[<-|[<-|[]]]]; auto.
  right; right; right.
  apply in_map_iff in Hin. destruct Hin as (i & <- & _).
  exists (INR i / 16 * PI * 2).
  destruct (Nat.eqb i 0); split; reflexivity.
Qed.

(** X2. For a box of non-negative width and height, every point of the
    outline that [drawBlob x y w h] builds lies in the box enlarged by five
    per cent of its size on each side: the radius of the canopy is between
    0.45 and 0.55 of the box. *)
Theorem drawBlob_within_box (x y w h px py : R) :
  0 <= w -> 0 <= h ->
  In (MoveTo px py) (drawBlob x y w h) \/ In (LineTo px py) (drawBlob x y w h) ->
  x - 0.05 * w <= px <= x + 1.05 * w /\ y - 0.05 * h <= py <= y + 1.05 * h.
Proof.
  intros Hw Hh Hin.
  assert (Hpt : exists a : R,
             (px, py)
             = (x + w * 0.5 + cos a * w * (0.45 + 0.1 * noise2D (cos a) (sin a)),
                y + h * 0.5 + sin a * h * (0.45 + 0.1 * noise2D (sin a) (cos a)))).
  { destruct Hin as [Hin|Hin]; apply drawBlob_points in Hin;
      destruct Hin as [E|[E|[E|(a & E & _)]]]; try discriminate;
      exists a; exact E. }
  destruct Hpt as (a & E). injection E as -> ->.
  pose proof (blob_radius_bound (cos a) w (noise2D (cos a) (sin a)) Hw
                (COS_bound a) (noise2D_unit _ _)) as Hx.
  pose proof (blob_radius_bound (sin a) h (noise2D (sin a) (cos a)) Hh
                (SIN_bound a) (noise2D_unit _ _)) as Hy.
  lra.
Qed.

Lemma drawBlob_within_box_witness :
  In (MoveTo (10 + 40 * 0.5
              + cos (INR 0 / 16 * PI * 2) * 40
                * (0.45 + 0.1 * noise2D (cos (INR 0 / 16 * PI * 2))
                                 (sin (INR 0 / 16 * PI * 2))))
        (20 + 30 * 0.5
         + sin (INR 0 / 16 * PI * 2) * 30
           * (0.45 + 0.1 * noise2D (sin (INR 0 / 16 * PI * 2))
                            (cos (INR 0 / 16 * PI * 2)))))
     (drawBlob 10 20 40 30)
  /\ 10 - 0.05 * 40
     <= 10 + 40 * 0.5
        + cos (INR 0 / 16 * PI * 2) * 40
          * (0.45 + 0.1 * noise2D (cos (INR 0 / 16 * PI * 2))
                           (sin (INR 0 / 16 * PI * 2)))
     <= 10 + 1.05 * 40.
Proof.
  assert (Hin : In (MoveTo (10 + 40 * 0.5
              + cos (INR 0 / 16 * PI * 2) * 40
                * (0.45 + 0.1 * noise2D (cos (INR 0 / 16 * PI * 2))
                                 (sin (INR 0 / 16 * PI * 2))))
        (20 + 30 * 0.5
         + sin (INR 0 / 16 * PI * 2) * 30
           * (0.45 + 0.1 * noise2D (sin (INR 0 / 16 * PI * 2))
                            (cos (INR 0 / 16 * PI * 2)))))
     (drawBlob 10 20 40 30)).
  { unfold drawBlob. cbn [app map seq In Nat.eqb]. right. left. reflexivity. }
  assert (Hw : 0 <= 40) by lra.
  assert (Hh : 0 <= 30) by lra.
  split; [exact Hin|].
  exact (proj1 (drawBlob_within_box 10 20 40 30 _ _ Hw Hh (or_introl Hin))).
Defined.

(** X3. [drawBlob] makes twenty calls: [beginPath], one [moveTo], sixteen
    [lineTo], [closePath] and [fill]; the last [lineTo] returns to the
    point of the [moveTo]: the polygon is closed before [closePath]. *)
Theorem drawBlob_outline_closed (x y w h : R) :
  List.length (drawBlob x y w h) = 20%nat
  /\ nth 0 (drawBlob x y w h) Fill = BeginPath
  /\ nth 18 (drawBlob x y w h) Fill = ClosePath
  /\ nth 19 (drawBlob x y w h) BeginPath = Fill
  /\ Forall (fun op => exists qx qy, op = LineTo qx qy)
       (firstn 16 (skipn 2 (drawBlob x y w h)))
  /\ exists px py : R,
       nth 1 (drawBlob x y w h) BeginPath = MoveTo px py
       /\ nth 17 (drawBlob x y w h) BeginPath = LineTo px py.
Proof.
  split; [reflexivity|]. split; [reflexivity|].
  split; [reflexivity|]. split; [reflexivity|]. split.
  - unfold drawBlob. cbn [app map seq Nat.eqb skipn firstn].
    repeat (constructor; [eexists; eexists; reflexivity|]). constructor.
  - assert (E0 : INR 0 / 16 * PI * 2 = 0) by (cbn [INR]; lra).
    assert (E16 : INR 16 / 16 * PI * 2 = 2 * PI).
    { rewrite INR_IZR_INZ. cbn [Z.of_nat Pos.of_succ_nat Pos.succ]. field. }
    eexists. eexists. split; [reflexivity|].
    unfold drawBlob. cbn [nth app map seq Nat.eqb].
    rewrite E0, E16, cos_0, sin_0, cos_2PI, sin_2PI. reflexivity.
Qed.

(* ------------------------------------------------------------------ *)
(** *** Ranges of the scrolled positions *)

Lemma div_mul_cancel (a b : R) : b <> 0 -> a / b * b = a.
Proof. intros Hb. field. exact Hb. Qed.

(** The remainder by a positive divisor is smaller than the divisor in
    absolute value and has the sign of the dividend. *)
Lemma js_rem_range (a b : R) :
  0 < b ->
  - b < js_rem a b < b
  /\ (0 <= a -> 0 <= js_rem a b)
  /\ (a <= 0 -> js_rem a b <= 0).
Proof.
  intros Hb.
  destruct (Req_dec a 0) as [->|Hne].
  { rewrite js_rem_0_l. repeat split; intros; lra. }
  unfold js_rem, trunc.
  assert (Hab : a / b * b = a) by (apply div_mul_cancel; lra).
  destruct (Rle_dec 0 (a / b)) as [Hq|Hq].
  - destruct (base_Int_part (a / b)) as [Hlo Hhi].
    set (z := IZR (Int_part (a / b))) in *.
    assert (H1 : z * b <= a / b * b) by (apply Rmult_le_compat_r; lra).
    assert (H2 : a / b * b - z * b < b).
    { replace (a / b * b - z * b) with ((a / b - z) * b) by ring.
      apply Rlt_le_trans with (1 * b); [|lra].
      apply Rmult_lt_compat_r; lra. }
    assert (Ha : 0 <= a / b * b) by (apply Rmult_le_pos; lra).
    rewrite Hab in H1, H2, Ha.
    repeat split; intros; lra.
  - destruct (base_Int_part (- (a / b))) as [Hlo Hhi].
    rewrite opp_IZR.
    set (z := IZR (Int_part (- (a / b)))) in *.
    assert (H1 : z * b <= - (a / b * b)).
    { replace (- (a / b * b)) with (- (a / b) * b) by ring.
      apply Rmult_le_compat_r; lra. }
    assert (H2 : - (a / b * b) - z * b < b).
    { replace (- (a / b * b) - z * b) with ((- (a / b) - z) * b) by ring.
      apply Rlt_le_trans with (1 * b); [|lra].
      apply Rmult_lt_compat_r; lra. }
    assert (Ha : 0 < - (a / b * b)).
    { replace (- (a / b * b)) with (- (a / b) * b) by ring.
      apply Rmult_lt_0_compat; lra. }
    rewrite Hab in H1, H2, Ha.
    repeat split; intros; lra.
Qed.

(** X4. On a surface of width [W >= 0] and from elapsed time [t >= 0] on,
    the horizontal position of the cat stays in [-150, W + 150): the cat
    enters from beyond the left edge and wraps before it is more than 150
    pixels past the right edge. *)
Theorem cat_x_range (t W : R) :
  0 <= W -> 0 <= t -> -150 <= cat_x t W < W + 150.
Proof.
  intros HW Ht. unfold cat_x. cbv zeta.
  assert (Hb : 0 < W + 300) by lra.
  destruct (js_rem_range (t * 140) (W + 300) Hb) as ([_ Hhi] & Hpos & _).
  assert (H0 : 0 <= t * 140) by lra.
  specialize (Hpos H0). lra.
Qed.

Lemma cat_x_range_witness : -150 <= cat_x 30 1280 < 1280 + 150.
Proof.
  apply (cat_x_range 30 1280); lra.
Defined.

(* ------------------------------------------------------------------ *)
(** *** The descriptors of [generateTrees] *)

Lemma generateTree_fields (i : nat) (W H : R) (g : Rng) :
  exists r1 r4 r5 : R,
    (0 <= r1 < 1 /\ 0 <= r4 < 1 /\ 0 <= r5 < 1)
    /\ Tree.x (fst (generateTree i W H g)) = r1 * W * 2 - W * 0.5
    /\ Tree.width (fst (generateTree i W H g))
       = Tree.height (fst (generateTree i W H g)) * (0.06 + r4 * 0.04)
    /\ Tree.hue (fst (generateTree i W H g))
       = 115 + INR (i mod 3) * 10 + r5 * 10.
Proof.
  exists (fst (rng_call g)), (fst (rng_call (rng_skip 3 g))),
         (fst (rng_call (rng_skip 4 g))).
  split; [repeat split; apply rng_call_range|].
  repeat split; reflexivity.
Qed.

Lemma generateTrees_from_loop (n : nat) (W H : R) (tr : Tree.t) :
  In tr (generateTrees n W H) ->
  exists k g, (k < n)%nat /\ tr = fst (generateTree k W H g).
Proof.
  intros Hin.
  eapply Permutation_in in Hin; [|symmetry; apply generateTrees_perm].
  rewrite generateTrees_loop_spec in Hin. cbn [app] in Hin.
  apply in_map_iff in Hin. destruct Hin as (k & <- & Hk).
  apply in_seq in Hk. exists k. eexists. split; [lia|reflexivity].
Qed.

(** X5. On a surface with [W >= 0] and [H >= 0], every descriptor of
    [generateTrees] has its layer among 0, 1, 2; its position [x] in
    [-W/2, 3W/2]; its hue in the ten degrees from [115 + 10 * layer]; a
    height of at least [0.096 * H]; and a width between 6 and 10 per cent
    of its height. *)
Theorem generateTrees_ranges (n : nat) (W H : R) (tr : Tree.t) :
  0 <= W -> 0 <= H ->
  In tr (generateTrees n W H) ->
  (Tree.layer tr < 3)%nat
  /\ - (W / 2) <= Tree.x tr <= 3 * W / 2
  /\ 115 + 10 * INR (Tree.layer tr) <= Tree.hue tr
       < 125 + 10 * INR (Tree.layer tr)
  /\ 0.096 * H <= Tree.height tr
  /\ 0.06 * Tree.height tr <= Tree.width tr <= 0.1 * Tree.height tr.
Proof.
  intros HW HH Hin.
  pose proof (generateTrees_shape n W H tr Hin) as (Hl & _ & r3 & Hr3 & Hh).
  destruct (generateTrees_from_loop n W H tr Hin) as (k & g & _ & E).
  destruct (generateTree_fields k W H g)
    as (r1 & r4 & r5 & (Hr1 & Hr4 & Hr5) & Hx & Hw & Hu).
  rewrite <- E in Hx, Hw, Hu.
  assert (El : Tree.layer tr = (k mod 3)%nat) by (rewrite E; reflexivity).
  rewrite <- El in Hu.
  assert (Hnom : 0.12 * H <= nominal_height H (Tree.layer tr)).
  { unfold nominal_height. pose proof (pos_INR (Tree.layer tr)). nra. }
  assert (Hh0 : 0.096 * H <= Tree.height tr) by (rewrite Hh; nra).
  split; [exact Hl|].
  split; [rewrite Hx; nra|].
  split; [rewrite Hu; lra|].
  split; [exact Hh0|].
  rewrite Hw. nra.
Qed.

Lemma generateTrees_ranges_witness :
  (Tree.layer (tree_at 5 1280 720) < 3)%nat
  /\ - (1280 / 2) <= Tree.x (tree_at 5 1280 720) <= 3 * 1280 / 2.
Proof.
  assert (HW : 0 <= 1280) by lra.
  assert (HH : 0 <= 720) by lra.
  assert (Hin : In (tree_at 5 1280 720) (generateTrees 24 1280 720))
    by (apply tree_at_generated; lia).
  destruct (generateTrees_ranges 24 1280 720 _ HW HH Hin) as (Hl & Hx & _).
  split; [exact Hl|exact Hx].
Defined.

(** X6. On a surface of width [W > 0], [drawForest] finds a speed for every
    descriptor of [generateTrees] (the position is never [NaN]), and at
    every elapsed time the tree is drawn strictly between [-W] and [3 W];
    from elapsed time 0 on, a tree that has passed its origin is drawn in
    (-W, W]. *)
Theorem generated_tree_on_screen_range (n : nat) (W H t : R) (tr : Tree.t) :
  0 < W ->
  In tr (generateTrees n W H) ->
  exists px : R,
    treeScreenX W t tr = Some px
    /\ - W < px < 3 * W
    /\ (forall s, layerSpeed (Tree.layer tr) = Some s ->
          Tree.x tr - t * s <= 0 -> px <= W).
Proof.
  intros HW Hin.
  pose proof (generateTrees_shape n W H tr Hin) as (Hl & _).
  unfold treeScreenX.
  destruct (layerSpeed (Tree.layer tr)) as [s|] eqn:Es.
  - eexists. split; [reflexivity|].
    assert (Hb : 0 < W * 2) by lra.
    destruct (js_rem_range (Tree.x tr - t * s) (W * 2) Hb) as (Hr & _ & Hneg).
    split; [lra|].
    intros s' E Hx. injection E as <-. specialize (Hneg Hx). lra.
  - exfalso. unfold layerSpeed, layerSpeeds in Es.
    apply nth_error_None in Es. cbn [List.length] in Es. lia.
Qed.

Lemma generated_tree_on_screen_range_witness :
  exists px : R,
    treeScreenX 1280 400 (tree_at 0 1280 720) = Some px
    /\ - 1280 < px < 3 * 1280 /\ px <= 1280.
Proof.
  assert (HW : 0 < 1280) by lra.
  assert (Hin : In (tree_at 0 1280 720) (generateTrees 24 1280 720))
    by (apply tree_at_generated; lia).
  destruct (generated_tree_on_screen_range 24 1280 720 400 _ HW Hin)
    as (px & E & Hr & Hle).
  exists px. split; [exact E|]. split; [exact Hr|].
  apply (Hle 8); [reflexivity|].
  rewrite tree_at_x. change (5 * 0 + 1)%nat with 1%nat. rewrite first_value.
  lra.
Defined.

Lemma generateTrees_layers (n : nat) (W H : R) :
  Permutation (map (fun k => (k mod 3)%nat) (seq 0 n))
              (map Tree.layer (generateTrees n W H)).
Proof.
  eapply perm_trans; [|apply Permutation_map; apply generateTrees_perm].
  rewrite generateTrees_loop_spec. cbn [app]. rewrite map_map.
  apply Permutation_refl.
Qed.

Lemma count_mod3 (k l : nat) :
  (l < 3)%nat ->
  count_occ Nat.eq_dec (map (fun i => (i mod 3)%nat) (seq 0 (3 * k))) l = k.
Proof.
  intros Hl. induction k as [|k IH]; [reflexivity|].
  replace (3 * S k)%nat with (3 * k + 3)%nat by lia.
  rewrite seq_app, map_app, count_occ_app, IH.
  cbn [seq map Nat.add].
  replace (3 * k)%nat with (0 + k * 3)%nat at 1 by lia.
  replace (S (3 * k))%nat with (1 + k * 3)%nat by lia.
  replace (S (1 + k * 3))%nat with (2 + k * 3)%nat by lia.
  rewrite !Nat.Div0.mod_add.
  destruct l as [|[|[|l]]]; [cbn; lia..|lia].
Qed.

(** X7. [generateTrees n W H] returns [n] descriptors, and for a count
    that is a multiple of three it returns as many descriptors of each of
    the three layers: [generateTrees (3 k) W H] has [k] of layer 0, [k] of
    layer 1 and [k] of layer 2. *)
Theorem generateTrees_layer_counts (n k : nat) (W H : R) :
  List.length (generateTrees n W H) = n
  /\ count_occ Nat.eq_dec (map Tree.layer (generateTrees (3 * k) W H)) 0%nat
     = k
  /\ count_occ Nat.eq_dec (map Tree.layer (generateTrees (3 * k) W H)) 1%nat
     = k
  /\ count_occ Nat.eq_dec (map Tree.layer (generateTrees (3 * k) W H)) 2%nat
     = k.
Proof.
  split; [apply generateTrees_length|].
  pose proof (generateTrees_layers (3 * k) W H) as Hp.
  rewrite (Permutation_count_occ Nat.eq_dec) in Hp.
  repeat split; rewrite <- Hp; apply count_mod3; lia.
Qed.

(* ------------------------------------------------------------------ *)
(** *** The counter of [mulberry32] *)

Lemma ToInt32_congr (a b : Z) :
  (a mod JS.two32 = b mod JS.two32)%Z -> JS.ToInt32 a = JS.ToInt32 b.
Proof.
  intros E. unfold JS.ToInt32.
  rewrite <- (Z.add_mod_idemp_l a), <- (Z.add_mod_idemp_l b)
    by (unfold JS.two32; lia).
  now rewrite E.
Qed.

Lemma mulberry32_mix_congr (a b : Z) :
  (a mod JS.two32 = b mod JS.two32)%Z -> mulberry32_mix a = mulberry32_mix b.
Proof.
  intros E. pose proof (ToInt32_congr a b E) as Ei.
  unfold mulberry32_mix. cbv zeta.
  assert (Et : JS.imul (JS.xor a (JS.ushr a 15)) (JS.or a 1)
               = JS.imul (JS.xor b (JS.ushr b 15)) (JS.or b 1)).
  { unfold JS.xor, JS.or, JS.ushr, JS.ToUint32. now rewrite Ei, E. }
  now rewrite Et.
Qed.

Lemma rng_skip_exact (n : nat) (seed : Z) :
  (0 <= seed)%Z ->
  (seed + Z.of_nat n * 1831565813 < 9007199254740992)%Z ->
  rng_skip n seed = (seed + Z.of_nat n * 1831565813)%Z.
Proof.
  intros Hs. induction n as [|n IH]; intros Hb.
  - cbn. lia.
  - change (rng_skip (S n) seed) with (rng_advance (rng_skip n seed)).
    rewrite IH by lia.
    unfold rng_advance, JS.add, JS.roundDouble.
    set (z := (seed + Z.of_nat n * 1831565813 + 1831565813)%Z).
    assert (Hz : (Z.abs z <? 9007199254740992)%Z = true)
      by (apply Z.ltb_lt; unfold z; lia).
    cbv zeta. rewrite Hz. unfold z. lia.
Qed.

Lemma rng_calls_nth (n : nat) :
  forall g, nth n (fst (rng_calls (S n) g)) 0 = fst (rng_call (rng_skip n g)).
Proof.
  induction n as [|n IH]; intros g.
  - reflexivity.
  - rewrite rng_skip_succ_r, <- IH.
    change (rng_calls (S (S n)) g)
      with (let (v, g1) := rng_call g in
            let (vs, g2) := rng_calls (S n) g1 in (v :: vs, g2)).
    change (rng_call g)
      with (IZR (mulberry32_mix (rng_advance g)) / 4294967296, rng_advance g).
    cbv iota beta.
    destruct (rng_calls (S n) (rng_advance g)) as [vs g2]. reflexivity.
Qed.

(** X8. While the counter of the generator is below 2^53 (for a seed
    [seed >= 0], during the first [n] calls with
    [seed + n * 0x6d2b79f5 < 2^53]) the additions are exact and the value
    of call number [n] depends on the counter modulo 2^32 only: it is the
    mix of [(seed + n * 0x6d2b79f5) mod 2^32], as for a generator that
    keeps its counter in 32 bits. *)
Theorem mulberry32_counter_mod_2_32 (seed : Z) (n : nat) :
  (0 <= seed)%Z ->
  (seed + Z.of_nat (S n) * 1831565813 < 9007199254740992)%Z ->
  nth n (fst (rng_calls (S n) (mulberry32 seed))) 0
  = IZR (mulberry32_mix ((seed + Z.of_nat (S n) * 1831565813) mod 4294967296))
    / 4294967296.
Proof.
  intros Hs Hb. rewrite rng_calls_nth.
  unfold rng_call. cbn [fst]. unfold mulberry32.
  change (rng_advance (rng_skip n seed)) with (rng_skip (S n) seed).
  rewrite rng_skip_exact by assumption.
  f_equal. f_equal. apply mulberry32_mix_congr.
  unfold JS.two32. now rewrite Z.mod_mod by lia.
Qed.

Lemma mulberry32_counter_mod_2_32_witness :
  nth 2 (fst (rng_calls 3 (mulberry32 123456))) 0
  = IZR (mulberry32_mix ((123456 + Z.of_nat 3 * 1831565813) mod 4294967296))
    / 4294967296.
Proof.
  apply (mulberry32_counter_mod_2_32 123456 2); cbn; lia.
Defined.

(* ------------------------------------------------------------------ *)
(** *** Bounds of the animated shapes *)

(** X9. Whatever the elapsed time and the surface, the body of the cat
    bobs at most 4 pixels around its rest height, each foot is at most 12
    pixels ahead of or behind its hip, neighbouring legs swing in opposite
    directions, and every foot is on the line 8 pixels above the ground
    line [0.78 H]. *)
Theorem cat_pose_bounds (t W H : R) :
  -4 <= body_bob H (drawCat t W H) <= 4
  /\ Forall (fun s => -12 <= s <= 12)
       (map (fun i => leg_swing i (drawCat t W H)) (seq 0 4))
  /\ leg_swing 1 (drawCat t W H) = - leg_swing 0 (drawCat t W H)
  /\ leg_swing 3 (drawCat t W H) = - leg_swing 2 (drawCat t W H)
  /\ Forall (fun i => snd (cmd_point (nth (20 + 4 * i) (drawCat t W H) BeginPath))
                      = H * 0.78 - 8)
       (seq 0 4).
Proof.
  pose proof (SIN_bound (t * 6)) as [Hb1 Hb2].
  pose proof (SIN_bound (t * 8)) as [Hg1 Hg2].
  pose proof (drawCat_leg_swings t W H) as Hl.
  split; [rewrite drawCat_body_bob; lra|].
  split.
  - rewrite Hl. unfold gait_phase.
    repeat (apply Forall_cons; [lra|]). apply Forall_nil.
  - cbn [map seq] in Hl. injection Hl as E0 E1 E2 E3.
    split; [rewrite E0, E1; ring|].
    split; [rewrite E2, E3; ring|].
    unfold drawCat.
    cbn [seq nth app flat_map cmd_point snd Nat.add Nat.mul].
    repeat (apply Forall_cons; [reflexivity|]). apply Forall_nil.
Qed.

Lemma js_rem_towards_zero (a b : R) :
  0 < b -> (a <= 0 -> a <= js_rem a b) /\ (0 <= a -> js_rem a b <= a).
Proof.
  intros Hb.
  destruct (Req_dec a 0) as [->|Hne].
  { rewrite js_rem_0_l. split; intros; lra. }
  assert (Hab : a / b * b = a) by (apply div_mul_cancel; lra).
  unfold js_rem, trunc.
  destruct (Rle_dec 0 (a / b)) as [Hq|Hq].
  - destruct (base_Int_part (a / b)) as [Hlo Hhi].
    assert (Hz : (0 <= Int_part (a / b))%Z).
    { apply Z.lt_succ_r. apply lt_IZR. rewrite succ_IZR. lra. }
    apply IZR_le in Hz.
    assert (Ha : 0 <= a / b * b) by (apply Rmult_le_pos; lra).
    rewrite Hab in Ha.
    split; intros; [lra|nra].
  - destruct (base_Int_part (- (a / b))) as [Hlo Hhi].
    assert (Hz : (0 <= Int_part (- (a / b)))%Z).
    { apply Z.lt_succ_r. apply lt_IZR. rewrite succ_IZR. lra. }
    apply IZR_le in Hz. rewrite opp_IZR.
    assert (Ha : 0 < - (a / b * b)).
    { replace (- (a / b * b)) with (- (a / b) * b) by ring.
      apply Rmult_lt_0_compat; lra. }
    rewrite Hab in Ha.
    split; intros; [nra|lra].
Qed.

Lemma hill_xs_range (W x : R) : In x (hill_xs W) -> 0 <= x <= W.
Proof.
  unfold hill_xs. destruct (Rle_dec 0 W) as [HW|HW]; [|intros []].
  intros Hin. apply in_map_iff in Hin. destruct Hin as (k & <- & Hk).
  apply in_seq in Hk.
  destruct (base_Int_part (W / 8)) as [Hlo Hhi].
  assert (Hz : (0 <= Int_part (W / 8))%Z).
  { apply Z.lt_succ_r. apply lt_IZR. rewrite succ_IZR.
    assert (0 <= W / 8) by lra. lra. }
  assert (Hk' : (Z.of_nat k <= Int_part (W / 8))%Z) by lia.
  apply IZR_le in Hk'. rewrite <- INR_IZR_INZ in Hk'.
  pose proof (pos_INR k). lra.
Qed.

(** X11. Every point of the three silhouettes of [drawHills] is either
    the closing corner [(W, H)] or a sample with [0 <= x <= W] whose
    height is within 30 pixels of the base line [H * (0.55 - 0.07 i)] of
    one of the layers [i = 0, 1, 2]; every silhouette starts at the
    corner [(0, H)]. *)
Theorem drawHills_silhouettes (W H t : R) :
  Forall (fun op =>
            match op with
            | LineTo x y =>
                (x = W /\ y = H)
                \/ (0 <= x <= W
                    /\ exists i : nat,
                         (i < 3)%nat
                         /\ H * (0.55 - INR i * 0.07) - 30 <= y
                              <= H * (0.55 - INR i * 0.07) + 30)
            | MoveTo x y => x = 0 /\ y = H
            | _ => True
            end)
         (drawHills W H t).
Proof.
  apply Forall_forall. intros op Hin.
  unfold drawHills in Hin. cbv zeta in Hin.
  apply in_flat_map in Hin. destruct Hin as (i & Hi & Hin).
  apply in_seq in Hi.
  apply in_app_or in Hin. destruct Hin as [[<-|[<-|[<-|[]]]]|Hin];
    [exact I|exact I|split; reflexivity|].
  apply in_app_or in Hin. destruct Hin as [Hin|[<-|[<-|[<-|[]]]]];
    [|left; split; reflexivity|exact I|exact I].
  apply in_map_iff in Hin. destruct Hin as (x & <- & Hx).
  apply hill_xs_range in Hx.
  right. split; [exact Hx|]. exists i. split; [lia|].
  pose proof (SIN_bound ((x + INR i * 200) * 0.004 + t * (0.05 + INR i * 0.02)))
    as [Hs1 Hs2].
  lra.
Qed.

(* ------------------------------------------------------------------ *)
(** *** What a frame paints *)

Lemma paint_count_app (l1 l2 : list cmd) :
  paint_count (l1 ++ l2) = (paint_count l1 + paint_count l2)%nat.
Proof. unfold paint_count. now rewrite filter_app, length_app. Qed.

Lemma paint_count_flat_map {A : Type} (f : A -> list cmd) (k : nat)
    (xs : list A) :
  (forall x, In x xs -> paint_count (f x) = k) ->
  paint_count (flat_map f xs) = (k * List.length xs)%nat.
Proof.
  induction xs as [|x xs IH]; intros Hf; cbn [flat_map List.length].
  - now rewrite Nat.mul_0_r.
  - rewrite paint_count_app, (Hf x (or_introl eq_refl)), IH.
    + lia.
    + intros y Hy. apply Hf. now right.
Qed.

Lemma exec_surface (c : ctx) (op : cmd) :
  exists new, surface (exec c op) = surface c ++ new
              /\ List.length new = paint_count [op].
Proof.
  destruct op; cbn [exec surface];
    first [ exists []; split; [now rewrite app_nil_r|reflexivity]
          | eexists [_]; split; reflexivity ].
Qed.

(** Running calls only adds to the surface, one primitive for each
    painting call. *)
Lemma run_surface (ops : list cmd) :
  forall c, exists new,
    surface (run c ops) = surface c ++ new
    /\ List.length new = paint_count ops.
Proof.
  induction ops as [|op ops IH]; intros c.
  - exists []. split; [now rewrite app_nil_r|reflexivity].
  - unfold run; cbn [fold_left].
    destruct (exec_surface c op) as (n1 & E1 & L1).
    destruct (IH (exec c op)) as (n2 & E2 & L2).
    exists (n1 ++ n2). split.
    + unfold run in E2. rewrite E2, E1. now rewrite app_assoc.
    + rewrite length_app, L1, L2.
      change (op :: ops) with ([op] ++ ops). now rewrite paint_count_app.
Qed.

Lemma drawHills_paint_count (W H t : R) : paint_count (drawHills W H t) = 3%nat.
Proof.
  unfold drawHills. cbv zeta.
  rewrite paint_count_flat_map with (k := 1%nat); [reflexivity|].
  intros i _. rewrite !paint_count_app.
  assert (E : forall (f : R -> R) xs,
             paint_count (map (fun x => LineTo x (f x)) xs) = 0%nat).
  { intros f xs. induction xs as [|x xs IH]; [reflexivity|exact IH]. }
  rewrite (E (fun x => H * (0.55 - INR i * 0.07)
                       + 30 * sin ((x + INR i * 200) * 0.004
                                   + t * (0.05 + INR i * 0.02)))).
  reflexivity.
Qed.

Lemma drawTree_paint_count (W H t : R) (tr : Tree.t) :
  (Tree.layer tr < 3)%nat -> paint_count (drawTree W H t tr) = 2%nat.
Proof.
  intros Hl. unfold drawTree, treeScreenX.
  destruct (layerSpeed (Tree.layer tr)) eqn:Es; [reflexivity|].
  unfold layerSpeed, layerSpeeds in Es.
  apply nth_error_None in Es. cbn [List.length] in Es. lia.
Qed.

(** X12. Whatever is on the surface stays below the frame: [renderFrame]
    only adds primitives.  The first one it adds is the sky rectangle that
    covers the whole surface [(0, 0, W, H)], and with descriptors whose
    layers are 0, 1 or 2 it adds [161 + 2 n] primitives for [n] trees
    (sky, three hills, trunk and canopy per tree, ground, sixteen shapes of
    the cat, 140 blades of grass). *)
Theorem renderFrame_paints (e W H : R) (trees : list Tree.t) (c : ctx) :
  Forall (fun tr => (Tree.layer tr < 3)%nat) trees ->
  exists sky rest,
    surface (run c (renderFrame e W H trees))
    = surface c ++ PaintRect sky 0 0 W H :: rest
    /\ List.length rest = (160 + 2 * List.length trees)%nat.
Proof.
  intros Ht. unfold renderFrame. cbv zeta.
  set (sky := addColorStop 1 "#e8f6ff"
                (addColorStop 0 "#a8d0ff" (createLinearGradient 0 0 0 H))).
  match goal with
  | |- context [run c ([SetFillStyle sky; FillRect 0 0 W H] ++ ?tail)] =>
      set (ops := tail)
  end.
  unfold run. rewrite fold_left_app. cbn [fold_left exec surface fillStyle].
  match goal with
  | |- context [fold_left exec ops ?c1] => destruct (run_surface ops c1)
                                             as (rest & E & L)
  end.
  exists sky, rest. unfold run in E. rewrite E. cbn [surface].
  split; [now rewrite <- app_assoc|].
  rewrite L. unfold ops. rewrite !paint_count_app.
  rewrite drawHills_paint_count.
  unfold drawForest.
  rewrite paint_count_flat_map with (k := 2%nat).
  - change (paint_count (drawCat e W H)) with 16%nat.
    change (paint_count (drawGrass W H e)) with 140%nat.
    cbn [paint_count filter paint_call List.length]. lia.
  - intros tr Hin. apply drawTree_paint_count.
    rewrite Forall_forall in Ht. now apply Ht.
Qed.

Lemma renderFrame_paints_witness :
  exists sky rest,
    surface (run fresh_ctx
               (renderFrame 0 1280 720 [Tree.mk 100 500 90 7 0 120]))
    = PaintRect sky 0 0 1280 720 :: rest
    /\ List.length rest = 162%nat.
Proof.
  assert (Ht : Forall (fun tr => (Tree.layer tr < 3)%nat)
                 [Tree.mk 100 500 90 7 0 120]).
  { apply Forall_cons; [cbn; lia|apply Forall_nil]. }
  destruct (renderFrame_paints 0 1280 720 [Tree.mk 100 500 90 7 0 120]
              fresh_ctx Ht) as (sky & rest & E & L).
  exists sky, rest. split; [exact E|exact L].
Defined.

(* ------------------------------------------------------------------ *)
(** *** The animation loop *)

Lemma animate_stopped (trees : list Tree.t) (ts : list R) (a : Anim.t)
    (c : ctx) :
  Anim.running a = false -> animate trees ts a c = (a, c).
Proof.
  intros Hr. destruct ts as [|t ts]; [reflexivity|].
  cbn [animate]. unfold render. rewrite Hr. reflexivity.
Qed.

Lemma animate_running (trees : list Tree.t) (ts : list R) :
  forall (a : Anim.t) (c : ctx),
    Anim.running a = true -> Anim.startTime a <> 0 ->
    animate trees ts a c
    = (a, fold_left
            (fun c t =>
               run c (renderFrame ((t - Anim.startTime a) / 1000)
                        (Anim.width a) (Anim.height a) trees))
            ts c).
Proof.
  induction ts as [|t ts IH]; intros a c Hr Hs; [reflexivity|].
  cbn [animate fold_left].
  rewrite (render_paints_frame trees t a c Hr Hs).
  now apply IH.
Qed.

(** X13. Started with the start time unset, the animation loop takes the
    first timestamp [t0] (not 0) as the start time and keeps it: the
    callback at timestamp [t] paints the frame of elapsed time
    [(t - t0) / 1000], one frame per callback, on the dimensions stored in
    the animation state. *)
Theorem animate_elapsed_from_first_frame
    (trees : list Tree.t) (t0 : R) (ts : list R) (a : Anim.t) (c : ctx) :
  Anim.running a = true -> Anim.startTime a = 0 -> t0 <> 0 ->
  animate trees (t0 :: ts) a c
  = (Anim.mk t0 (Anim.lastTime a) true (Anim.width a) (Anim.height a),
     fold_left
       (fun c t =>
          run c (renderFrame ((t - t0) / 1000)
                   (Anim.width a) (Anim.height a) trees))
       (t0 :: ts) c).
Proof.
  intros Hr Hs Ht0.
  cbn [animate fold_left]. unfold render at 1. rewrite Hr. cbn [negb].
  destruct (Req_dec_T (Anim.startTime a) 0) as [_|Hn]; [|contradiction].
  cbn [Anim.startTime Anim.width Anim.height].
  rewrite animate_running; cbn [Anim.running Anim.startTime]; auto.
Qed.

Lemma animate_elapsed_from_first_frame_witness :
  animate [] [16; 32] (Page.anim (Page.effect_start Page.init)) fresh_ctx
  = (Anim.mk 16 0 true 1280 720,
     fold_left
       (fun c t => run c (renderFrame ((t - 16) / 1000) 1280 720 []))
       [16; 32] fresh_ctx).
Proof.
  apply (animate_elapsed_from_first_frame [] 16 [32]
           (Page.anim (Page.effect_start Page.init)) fresh_ctx).
  - reflexivity.
  - reflexivity.
  - lra.
Defined.

(** X14. After the clean-up of the effect has cleared the running flag, no
    frame callback draws: whatever timestamps are still delivered, the
    surface and the animation state stay as they are.  Before the effect
    has started the animation (the initial state) it is the same. *)
Theorem animate_after_cleanup
    (trees : list Tree.t) (ts : list R) (p : Page.t) (c : ctx) :
  animate trees ts (Page.anim (Page.effect_cleanup p)) c
  = (Page.anim (Page.effect_cleanup p), c)
  /\ animate trees ts (Page.anim Page.init) c = (Page.anim Page.init, c).
Proof. split; apply animate_stopped; reflexivity. Qed.

(* ------------------------------------------------------------------ *)
(** *** The capture controller: starting a recording *)

Lemma pickMimeType_first (b : Browser) (pre post : list string) (mt : string) :
  supports b mt = true ->
  (forall x, In x pre -> supports b x = false) ->
  pickMimeType b (pre ++ mt :: post) = mt.
Proof.
  unfold supports. intros Hmt Hpre.
  induction pre as [|x pre IH]; cbn [app pickMimeType].
  - now rewrite Hmt.
  - rewrite (Hpre x (or_introl eq_refl)). apply IH.
    intros y Hy. apply Hpre. now right.
Qed.

Lemma mimeTypes_nonempty (mt : string) : In mt mimeTypes -> mt <> ""%string.
Proof.
  unfold mimeTypes. intros [<-|[<-|[<-|[]]]]; discriminate.
Qed.

(** X15. With the canvas mounted and [captureStream] present,
    [handleRecord] takes the first entry of the preference list that the
    browser supports: it clears the message and the video link, sets the
    status to [recording] and starts one session with that format, no
    chunks, and a wait of [durationSec * 1000] milliseconds; the sessions
    already there and the animation state are untouched. *)
Theorem handleRecord_starts
    (b : Browser) (p : Page.t) (pre post : list string) (mt : string) :
  canvasMounted b = true -> hasCaptureStream b = true ->
  mimeTypes = pre ++ mt :: post ->
  supports b mt = true ->
  (forall x, In x pre -> supports b x = false) ->
  handleRecord b p
  = Page.mk recording None None (Page.durationSec p) (Page.anim p)
      (Page.sessions p
         ++ [mkSession mt [] (js_mul (Page.durationSec p) (Fin 1000))
               AwaitWait]).
Proof.
  intros Hc Hs Hl Hmt Hpre.
  assert (Hpick : pickMimeType b mimeTypes = mt)
    by (rewrite Hl; now apply pickMimeType_first).
  assert (Hne : mt <> ""%string).
  { apply mimeTypes_nonempty. rewrite Hl. apply in_or_app. right. now left. }
  unfold handleRecord. rewrite Hc, Hs. cbn [negb]. rewrite Hpick.
  destruct (String.eqb mt "") eqn:E.
  - apply String.eqb_eq in E. contradiction.
  - reflexivity.
Qed.

Lemma handleRecord_starts_witness :
  handleRecord
    (mkBrowser true true true (fun mt => String.eqb mt "video/webm"))
    Page.init
  = Page.mk recording None None (Fin 10) (Anim.mk 0 0 false 1280 720)
      [mkSession "video/webm" [] (Fin (10 * 1000)) AwaitWait].
Proof.
  apply (handleRecord_starts
           (mkBrowser true true true (fun mt => String.eqb mt "video/webm"))
           Page.init
           ["video/webm;codecs=vp9,opus"; "video/webm;codecs=vp8,opus"]%string
           [] "video/webm").
  - reflexivity.
  - reflexivity.
  - reflexivity.
  - reflexivity.
  - intros x [<-|[<-|[]]]; reflexivity.
Defined.

(* ------------------------------------------------------------------ *)
(** *** The capture controller: from the chunks to the video *)

Lemma nth_error_update_nth (i : nat) (s : Session) (l : list Session) :
  (i < List.length l)%nat -> nth_error (update_nth i s l) i = Some s.
Proof.
  revert i. induction l as [|s0 l IH]; intros i Hi; cbn [List.length] in Hi.
  - lia.
  - destruct i; cbn [update_nth nth_error]; [reflexivity|].
    apply IH. lia.
Qed.

Lemma nth_error_length (i : nat) (s : Session) (l : list Session) :
  nth_error l i = Some s -> (i < List.length l)%nat.
Proof. intros E. apply nth_error_Some. congruence. Qed.

Lemma steps_app (p : Page.t) (es1 es2 : list event) :
  steps p (es1 ++ es2) = steps (steps p es1) es2.
Proof. unfold steps. apply fold_left_app. Qed.

(** Data events leave everything but the chunks of their session. *)
Lemma data_events (i : nat) (ds : list (option Blob)) :
  forall (q : Page.t) (m : string) (cs : list Blob) (w : jsnum) (aw : Await),
    nth_error (Page.sessions q) i = Some (mkSession m cs w aw) ->
    nth_error (Page.sessions (steps q (map (RecorderData i) ds))) i
    = Some (mkSession m (cs ++ kept_chunks ds) w aw)
    /\ Page.recState (steps q (map (RecorderData i) ds)) = Page.recState q.
Proof.
  induction ds as [|d ds IH]; intros q m cs w aw Hn.
  - cbn. now rewrite app_nil_r.
  - cbn [map]. change (steps q (RecorderData i d :: map (RecorderData i) ds))
      with (steps (ondataavailable i d q) (map (RecorderData i) ds)).
    pose proof (nth_error_length _ _ _ Hn) as Hlen.
    unfold ondataavailable. rewrite Hn. cbn [kept_chunks flat_map].
    destruct d as [d|]; [destruct (0 <? blob_size d)%nat|].
    + cbn [mimeType chunks waitMs at_await].
      destruct (IH (Page.setSessions
                      (update_nth i (mkSession m (cs ++ [d]) w aw)
                         (Page.sessions q)) q)
                  m (cs ++ [d]) w aw) as [E1 E2].
      { cbn [Page.sessions Page.setSessions].
        now apply nth_error_update_nth. }
      rewrite E1, E2. rewrite <- app_assoc. split; reflexivity.
    + destruct (IH q m cs w aw Hn) as [E1 E2]. now rewrite E1, E2.
    + destruct (IH q m cs w aw Hn) as [E1 E2]. now rewrite E1, E2.
Qed.

Lemma Blob_of_size (cs : list Blob) (ty : string) :
  blob_size (Blob_of cs ty)
  = fold_right (fun b n => (blob_size b + n)%nat) 0%nat cs.
Proof. reflexivity. Qed.

Lemma kept_chunks_size (ds : list (option Blob)) :
  fold_right (fun b n => (blob_size b + n)%nat) 0%nat (kept_chunks ds)
  = delivered_size ds.
Proof.
  induction ds as [|[d|] ds IH]; cbn [kept_chunks flat_map delivered_size
                                      fold_right]; [reflexivity| |exact IH].
  destruct (0 <? blob_size d)%nat eqn:E; cbn [app fold_right].
  - f_equal. exact IH.
  - apply Nat.ltb_ge in E. unfold kept_chunks in IH. rewrite IH.
    unfold delivered_size. lia.
Qed.

(** X16. For a session that is waiting, with no chunks yet: the data
    events of its recorder before and after the end of the wait, then the
    stop of the recorder, end in status [done] with a video that is the
    chunks delivered, in order, without the missing and the empty ones, in
    the format of the session; its size is the number of bytes delivered;
    and the session has returned. *)
Theorem recording_collects_chunks
    (q : Page.t) (i : nat) (m : string) (w : jsnum)
    (ds1 ds2 : list (option Blob)) :
  nth_error (Page.sessions q) i = Some (mkSession m [] w AwaitWait) ->
  let q' := steps q (map (RecorderData i) ds1 ++ [WaitElapsed i]
                     ++ map (RecorderData i) ds2 ++ [RecorderStopped i]) in
  Page.recState q' = done
  /\ Page.videoUrl q' = Some (Blob_of (kept_chunks (ds1 ++ ds2)) m)
  /\ (exists v, Page.videoUrl q' = Some v
                /\ blob_size v = delivered_size (ds1 ++ ds2)
                /\ blob_type v = m)
  /\ nth_error (Page.sessions q') i
     = Some (mkSession m (kept_chunks (ds1 ++ ds2)) w Returned).
Proof.
  intros Hn q'.
  assert (Hq' : Page.recState q' = done
                /\ Page.videoUrl q' = Some (Blob_of (kept_chunks (ds1 ++ ds2)) m)
                /\ nth_error (Page.sessions q') i
                   = Some (mkSession m (kept_chunks (ds1 ++ ds2)) w Returned)).
  { unfold q'. rewrite !steps_app.
    destruct (data_events i ds1 q m [] w AwaitWait Hn) as [E1 _].
    cbn [app] in E1.
    set (q1 := steps q (map (RecorderData i) ds1)) in *.
    pose proof (nth_error_length _ _ _ E1) as Hlen1.
    change (steps q1 [WaitElapsed i]) with (afterWait i q1).
    unfold afterWait. rewrite E1. cbn [at_await mimeType chunks waitMs].
    match goal with
    | |- context [steps ?q2 (map (RecorderData i) ds2)] =>
        destruct (data_events i ds2 q2 m (kept_chunks ds1) w AwaitStop)
          as [E2 _]
    end.
    { cbn [Page.sessions Page.setSessions Page.setRecState].
      now apply nth_error_update_nth. }
    match goal with
    | |- context [steps ?q2 (map (RecorderData i) ds2)] =>
        set (q3 := steps q2 (map (RecorderData i) ds2)) in *
    end.
    pose proof (nth_error_length _ _ _ E2) as Hlen3.
    change (steps q3 [RecorderStopped i]) with (onstop i q3).
    unfold onstop. rewrite E2. cbn [at_await mimeType chunks waitMs].
    cbn [Page.recState Page.videoUrl Page.sessions Page.setSessions
         Page.setRecState Page.setVideoUrl].
    unfold kept_chunks. rewrite flat_map_app.
    split; [reflexivity|]. split; [reflexivity|].
    now apply nth_error_update_nth. }
  destruct Hq' as (Hs & Hv & Hnth).
  split; [exact Hs|]. split; [exact Hv|]. split; [|exact Hnth].
  eexists. split; [exact Hv|].
  split; [rewrite Blob_of_size; apply kept_chunks_size|reflexivity].
Qed.

Lemma recording_collects_chunks_witness :
  Page.videoUrl
    (steps (step Page.init (Click browser_full))
       (map (RecorderData 0) [Some (mkBlob 5 "video/webm"); None]
        ++ [WaitElapsed 0]
        ++ map (RecorderData 0) [Some (mkBlob 0 "video/webm");
                                 Some (mkBlob 7 "video/webm")]
        ++ [RecorderStopped 0]))
  = Some (Blob_of [mkBlob 5 "video/webm"; mkBlob 7 "video/webm"]
            "video/webm;codecs=vp9,opus").
Proof.
  destruct (recording_collects_chunks
              (step Page.init (Click browser_full)) 0
              "video/webm;codecs=vp9,opus" (Fin (10 * 1000))
              [Some (mkBlob 5 "video/webm"); None]
              [Some (mkBlob 0 "video/webm"); Some (mkBlob 7 "video/webm")]
              eq_refl) as (_ & Hv & _).
  exact Hv.
Defined.

(* ------------------------------------------------------------------ *)
(** *** The capture controller: what the page shows *)

Lemma ondataavailable_outputs (i : nat) (d : option Blob) (p : Page.t) :
  Page.errorMsg (ondataavailable i d p) = Page.errorMsg p
  /\ Page.videoUrl (ondataavailable i d p) = Page.videoUrl p.
Proof.
  unfold ondataavailable.
  destruct (nth_error (Page.sessions p) i), d as [d|]; try (split; reflexivity).
  destruct (0 <? blob_size d)%nat; split; reflexivity.
Qed.

Lemma onerror_cases (i : nat) (m : option string) (p : Page.t) :
  onerror i m p = p
  \/ (Page.recState (onerror i m p) = error
      /\ exists msg, Page.errorMsg (onerror i m p) = Some msg
                     /\ msg <> ""%string).
Proof.
  unfold onerror. destruct (nth_error (Page.sessions p) i); [right|now left].
  split; [reflexivity|]. cbn [Page.errorMsg Page.setErrorMsg Page.setRecState].
  eexists. split; [reflexivity|].
  destruct m as [m|]; [|discriminate].
  destruct (String.eqb m "") eqn:E; [discriminate|].
  now apply String.eqb_neq.
Qed.

Lemma handleRecord_outputs (b : Browser) (p : Page.t) :
  canvasMounted b = true ->
  Page.videoUrl (handleRecord b p) = None
  /\ ((Page.recState (handleRecord b p) = recording
       /\ Page.errorMsg (handleRecord b p) = None)
      \/ (Page.recState (handleRecord b p) = error
          /\ exists msg, Page.errorMsg (handleRecord b p) = Some msg
                         /\ msg <> ""%string)).
Proof.
  intros Hc. unfold handleRecord. rewrite Hc. cbn [negb].
  destruct (hasCaptureStream b); cbn [negb].
  - destruct (String.eqb _ _); (split; [reflexivity|]).
    + right. split; [reflexivity|]. eexists. split; [reflexivity|discriminate].
    + left. split; reflexivity.
  - split; [reflexivity|]. right. split; [reflexivity|].
    eexists. split; [reflexivity|discriminate].
Qed.

Lemma onstop_outputs (i : nat) (p : Page.t) :
  onstop i p = p
  \/ (Page.recState (onstop i p) = done
      /\ exists v, Page.videoUrl (onstop i p) = Some v).
Proof.
  unfold onstop. destruct (nth_error (Page.sessions p) i) as [s|]; [|now left].
  destruct (at_await s); [now left| |now left].
  right. split; [reflexivity|]. eexists. reflexivity.
Qed.

(** X17. As long as the canvas is mounted whenever the button is pressed,
    in every state the page reaches: status [error] comes with a non-empty
    message, status [done] with a video link, and status [idle] and status
    [recording] with neither a message nor a link. *)
Theorem status_matches_outputs (es : list event) :
  forallb canvas_present es = true ->
  (Page.recState (steps Page.init es) = error ->
     exists msg, Page.errorMsg (steps Page.init es) = Some msg
                 /\ msg <> ""%string)
  /\ (Page.recState (steps Page.init es) = done ->
        exists v, Page.videoUrl (steps Page.init es) = Some v)
  /\ (Page.recState (steps Page.init es) = idle
      \/ Page.recState (steps Page.init es) = recording ->
        Page.errorMsg (steps Page.init es) = None
        /\ Page.videoUrl (steps Page.init es) = None).
Proof.
  induction es as [|e es IH] using rev_ind; intros Hes.
  - split; [discriminate|]. split; [discriminate|]. intros _. split; reflexivity.
  - rewrite forallb_app in Hes. apply andb_prop in Hes.
    destruct Hes as [Hes He]. cbn [forallb] in He. rewrite andb_true_r in He.
    specialize (IH Hes). rewrite steps_snoc.
    set (p := steps Page.init es) in *.
    destruct e as [b|i|i|i d|i m|v]; cbn [step].
    + destruct (button_disabled p); [exact IH|].
      cbn [canvas_present] in He.
      destruct (handleRecord_outputs b p He) as [Hv [[Hs Hm]|[Hs Hm]]];
        rewrite Hs.
      * split; [discriminate|]. split; [discriminate|].
        intros _. split; [exact Hm|exact Hv].
      * split; [intros _; exact Hm|]. split; [discriminate|].
        intros [E|E]; discriminate.
    + destruct (afterWait_cases i p) as [->|[Hs _]]; [exact IH|].
      rewrite Hs. split; [discriminate|]. split; [discriminate|].
      intros [E|E]; discriminate.
    + destruct (onstop_outputs i p) as [->|[Hs Hv]]; [exact IH|].
      rewrite Hs. split; [discriminate|]. split; [intros _; exact Hv|].
      intros [E|E]; discriminate.
    + rewrite ondataavailable_recState.
      destruct (ondataavailable_outputs i d p) as [-> ->]. exact IH.
    + destruct (onerror_cases i m p) as [->|[Hs Hm]]; [exact IH|].
      rewrite Hs. split; [intros _; exact Hm|]. split; [discriminate|].
      intros [E|E]; discriminate.
    + exact IH.
Qed.

Lemma status_matches_outputs_witness :
  exists v, Page.videoUrl (steps Page.init one_recording) = Some v.
Proof.
  destruct (status_matches_outputs one_recording eq_refl) as (_ & Hd & _).
  apply Hd. reflexivity.
Defined.

(* ------------------------------------------------------------------ *)
(** *** The capture controller: one recording at a time *)

Lemma update_nth_app_l (i : nat) (s : Session) (l r : list Session) :
  (i < List.length l)%nat ->
  update_nth i s (l ++ r) = update_nth i s l ++ r.
Proof.
  revert i. induction l as [|s0 l IH]; intros i Hi; cbn [List.length] in Hi.
  - lia.
  - destruct i; cbn [app update_nth]; [reflexivity|].
    rewrite IH by lia. reflexivity.
Qed.

Lemma update_nth_app_r (j : nat) (s : Session) (l r : list Session) :
  update_nth (List.length l + j) s (l ++ r) = l ++ update_nth j s r.
Proof.
  induction l as [|s0 l IH]; cbn [List.length app Nat.add update_nth].
  - reflexivity.
  - now rewrite IH.
Qed.

Lemma update_nth_length (i : nat) (s : Session) (l : list Session) :
  List.length (update_nth i s l) = List.length l.
Proof.
  revert i. induction l as [|s0 l IH]; intros i; destruct i;
    cbn [update_nth List.length]; auto.
Qed.

Lemma filter_in_flight_returned (l : list Session) :
  Forall (fun s => at_await s = Returned) l -> filter in_flight l = [].
Proof.
  induction 1 as [|s l Hs _ IH]; [reflexivity|].
  cbn [filter]. unfold in_flight at 1. now rewrite Hs.
Qed.

(** The sessions that have returned, followed by the one in flight while
    the status is [recording] or [processing]. *)
Lemma sessions_shape (es : list event) :
  forallb no_recorder_error es = true ->
  exists l,
    Forall (fun s => at_await s = Returned) l
    /\ match Page.recState (steps Page.init es) with
       | recording =>
           exists s, Page.sessions (steps Page.init es) = l ++ [s]
                     /\ at_await s = AwaitWait
       | processing =>
           exists s, Page.sessions (steps Page.init es) = l ++ [s]
                     /\ at_await s = AwaitStop
       | _ => Page.sessions (steps Page.init es) = l
       end.
Proof.
  induction es as [|e es IH] using rev_ind; intros Hes.
  - exists []. split; [constructor|reflexivity].
  - rewrite forallb_app in Hes. apply andb_prop in Hes.
    destruct Hes as [Hes He]. cbn [forallb] in He. rewrite andb_true_r in He.
    destruct (IH Hes) as (l & Hl & Hsh). clear IH. rewrite steps_snoc.
    set (p := steps Page.init es) in *.
    assert (Hret : forall i s, nth_error l i = Some s -> at_await s = Returned).
    { intros i s E. apply nth_error_In in E.
      rewrite Forall_forall in Hl. now apply Hl. }
    destruct e as [b|i|i|i d|i m|v]; cbn [step];
      [| | | |discriminate|exists l; split; [exact Hl|exact Hsh]].
    + unfold button_disabled.
      destruct (handleRecord_cases b p) as [[Hs Hss]|[[Hs Hss]|[Hs Hss]]];
        destruct (Page.recState p) eqn:Hp;
        try (exists l; split; [exact Hl|]; rewrite Hp; exact Hsh);
        try (exists l; split; [exact Hl|]; rewrite Hs, ?Hss; exact Hsh);
        exists l; (split; [exact Hl|]); rewrite Hs, Hss, Hsh;
        eexists; split; reflexivity.
    + unfold afterWait.
      destruct (nth_error (Page.sessions p) i) as [s|] eqn:En;
        [|exists l; split; [exact Hl|exact Hsh]].
      destruct (at_await s) eqn:Ea;
        try (exists l; split; [exact Hl|exact Hsh]).
      exists l. split; [exact Hl|].
      cbn [Page.recState Page.sessions Page.setSessions Page.setRecState].
      destruct (Page.recState p);
        try (rewrite Hsh in En; apply Hret in En; congruence);
        destruct Hsh as (s0 & Hss & Ha0); rewrite Hss in En |- *;
        (destruct (Nat.lt_ge_cases i (List.length l)) as [Hi|Hi];
         [rewrite nth_error_app1 in En by exact Hi; apply Hret in En; congruence|]);
        rewrite nth_error_app2 in En by exact Hi;
        (destruct (i - List.length l)%nat as [|k] eqn:Ek;
         [|destruct k; discriminate]);
        cbn [nth_error] in En; injection En as <-; try congruence.
      replace i with (List.length l + 0)%nat by lia.
      rewrite update_nth_app_r. cbn [update_nth].
      eexists. split; reflexivity.
    + unfold onstop.
      destruct (nth_error (Page.sessions p) i) as [s|] eqn:En;
        [|exists l; split; [exact Hl|exact Hsh]].
      destruct (at_await s) eqn:Ea;
        try (exists l; split; [exact Hl|exact Hsh]).
      cbn [Page.recState Page.sessions Page.setSessions Page.setRecState
           Page.setVideoUrl].
      destruct (Page.recState p);
        try (rewrite Hsh in En; apply Hret in En; congruence);
        destruct Hsh as (s0 & Hss & Ha0); rewrite Hss in En |- *;
        (destruct (Nat.lt_ge_cases i (List.length l)) as [Hi|Hi];
         [rewrite nth_error_app1 in En by exact Hi; apply Hret in En; congruence|]);
        rewrite nth_error_app2 in En by exact Hi;
        (destruct (i - List.length l)%nat as [|k] eqn:Ek;
         [|destruct k; discriminate]);
        cbn [nth_error] in En; injection En as <-; try congruence.
      replace i with (List.length l + 0)%nat by lia.
      rewrite update_nth_app_r. cbn [update_nth].
      eexists. split; [|reflexivity].
      apply Forall_app. split; [exact Hl|].
      constructor; [reflexivity|constructor].
    + rewrite ondataavailable_recState. unfold ondataavailable.
      destruct (nth_error (Page.sessions p) i) as [s|] eqn:En;
        [|exists l; split; [exact Hl|exact Hsh]].
      destruct d as [d|]; [|exists l; split; [exact Hl|exact Hsh]].
      destruct (0 <? blob_size d)%nat; [|exists l; split; [exact Hl|exact Hsh]].
      cbn [Page.sessions Page.setSessions].
      set (s' := mkSession (mimeType s) (chunks s ++ [d]) (waitMs s) (at_await s)).
      assert (Hupd : Forall (fun s => at_await s = Returned) l ->
                     forall j s1, nth_error l j = Some s1 ->
                       at_await s1 = at_await s' ->
                       Forall (fun s => at_await s = Returned)
                         (update_nth j s' l)).
      { intros Hl' j s1 E1 Ea. apply Forall_update_nth; [|exact Hl'].
        rewrite <- Ea. eapply Hret; exact E1. }
      destruct (Page.recState p);
        try (exists (update_nth i s' l); split;
             [rewrite Hsh in En; exact (Hupd Hl i s En eq_refl)
             |rewrite Hsh; reflexivity]);
        destruct Hsh as (s0 & Hss & Ha0); rewrite Hss in En |- *;
        (destruct (Nat.lt_ge_cases i (List.length l)) as [Hi|Hi];
         [rewrite nth_error_app1 in En by exact Hi;
          exists (update_nth i s' l); split;
          [exact (Hupd Hl i s En eq_refl)
          |rewrite update_nth_app_l by exact Hi; eexists; split;
           [reflexivity|exact Ha0]]
         |]);
        rewrite nth_error_app2 in En by exact Hi;
        (destruct (i - List.length l)%nat as [|k] eqn:Ek;
         [|destruct k; discriminate]);
        cbn [nth_error] in En; injection En as <-;
        exists l; (split; [exact Hl|]);
        replace i with (List.length l + 0)%nat by lia;
        rewrite update_nth_app_r; cbn [update_nth];
        eexists; (split; [reflexivity|exact Ha0]).
Qed.

(** X18. As long as no recorder reports an error, recordings do not
    overlap: in every state the page reaches, exactly one invocation of
    [handleRecord] is in flight while the button is disabled (status
    [recording] or [processing]) and none is otherwise. *)
Theorem one_recording_at_a_time (es : list event) :
  forallb no_recorder_error es = true ->
  List.length (filter in_flight (Page.sessions (steps Page.init es)))
  = if button_disabled (steps Page.init es) then 1%nat else 0%nat.
Proof.
  intros Hes. destruct (sessions_shape es Hes) as (l & Hl & Hsh).
  pose proof (filter_in_flight_returned l Hl) as Hf.
  unfold button_disabled.
  destruct (Page.recState (steps Page.init es));
    try (rewrite Hsh, Hf; reflexivity);
    destruct Hsh as (s & -> & Ha);
    rewrite filter_app, Hf; cbn [filter app]; unfold in_flight;
    rewrite Ha; reflexivity.
Qed.

Lemma one_recording_at_a_time_witness :
  List.length
    (filter in_flight
       (Page.sessions
          (steps Page.init (one_recording ++ [Click browser_full]))))
  = 1%nat.
Proof.
  exact (one_recording_at_a_time (one_recording ++ [Click browser_full])
           eq_refl).
Defined.

(* ------------------------------------------------------------------ *)
(** *** The duration input at its edges *)

(** X19. What the duration input stores: a number between 1 and 60 as it
    is; 1 for a number below 1 (the empty field, which reads as 0,
    included) and for minus infinity; 60 for a number above 60 and for
    plus infinity; [NaN] for [NaN].  Storing is idempotent, and nothing
    else on the page changes. *)
Theorem onDurationChange_edges (p : Page.t) (v : jsnum) :
  (forall r, 1 <= r <= 60 ->
     Page.durationSec (onDurationChange (Fin r) p) = Fin r)
  /\ (forall r, r <= 1 -> Page.durationSec (onDurationChange (Fin r) p) = Fin 1)
  /\ (forall r, 60 <= r ->
        Page.durationSec (onDurationChange (Fin r) p) = Fin 60)
  /\ Page.durationSec (onDurationChange (Inf true) p) = Fin 1
  /\ Page.durationSec (onDurationChange (Inf false) p) = Fin 60
  /\ Page.durationSec (onDurationChange NaN p) = NaN
  /\ onDurationChange (Page.durationSec (onDurationChange v p))
       (onDurationChange v p)
     = onDurationChange v p
  /\ onDurationChange v p
     = Page.mk (Page.recState p) (Page.videoUrl p) (Page.errorMsg p)
         (Page.durationSec (onDurationChange v p)) (Page.anim p)
         (Page.sessions p).
Proof.
  unfold onDurationChange.
  cbn [Page.durationSec Page.setDurationSec Math_max Math_min].
  split; [intros r Hr; f_equal; rewrite Rmin_right by lra; apply Rmax_right; lra|].
  split.
  { intros r Hr. f_equal. rewrite Rmin_right by lra. apply Rmax_left; lra. }
  split.
  { intros r Hr. f_equal. rewrite Rmin_left by lra. apply Rmax_right; lra. }
  split; [reflexivity|].
  split; [f_equal; apply Rmax_right; lra|].
  split; [reflexivity|].
  split; [|reflexivity].
  unfold Page.setDurationSec.
  cbn [Page.recState Page.videoUrl Page.errorMsg Page.anim Page.sessions].
  f_equal.
  destruct v as [|[|]|r]; cbn [Math_max Math_min]; try reflexivity.
  - f_equal. rewrite Rmin_right by lra. apply Rmax_left; lra.
  - f_equal.
    rewrite (Rmax_right 1 60) by lra.
    rewrite (Rmin_left 60 60) by lra. apply Rmax_right; lra.
  - f_equal.
    assert (H1 : 1 <= Rmax 1 (Rmin 60 r)) by apply Rmax_l.
    assert (H2 : Rmax 1 (Rmin 60 r) <= 60).
    { apply Rmax_lub; [lra|apply Rmin_l]. }
    rewrite (Rmin_right 60 _) by exact H2. apply Rmax_right. exact H1.
Qed.

Lemma onDurationChange_edges_witness :
  Page.durationSec (onDurationChange (Fin 30) Page.init) = Fin 30
  /\ Page.durationSec (onDurationChange (Fin 0) Page.init) = Fin 1
  /\ Page.durationSec (onDurationChange (Fin 600) Page.init) = Fin 60.
Proof.
  destruct (onDurationChange_edges Page.init NaN) as (H1 & H2 & H3 & _).
  split; [apply H1; lra|]. split; [apply H2; lra|apply H3; lra].
Defined.


(* ================================================================== *)
(** * The scrolled positions up to a wrap *)


(* ------------------------------------------------------------------ *)
(** *** The walk of the cat *)




(* ------------------------------------------------------------------ *)
(** *** The scroll of a tree *)



(* ------------------------------------------------------------------ *)
(** *** The blades of grass *)

(** X10. [drawGrass] sets the stroke colour and the line width and then
    strokes 140 blades, each the four calls [beginPath], [moveTo],
    [quadraticCurveTo], [stroke].  On a surface of width [W > 0] every
    blade is rooted on the line [0.98 H] at a position [x0] in [-20, W),
    is [h] pixels tall with [10 <= h <= 50], and with a sway of at most 8
    pixels to either side its control point is at [x0 + sway], 0.6 of the
    height up, and its tip at [x0 + 1.6 sway]: at most 12.8 pixels to the
    side of its own root. *)
Theorem drawGrass_blades (W H t : R) :
  0 < W ->
  exists blades : list (list cmd),
    drawGrass W H t
    = [SetStrokeStyle (Css "#2a5f2a"); SetLineWidth 2] ++ List.concat blades
    /\ List.length blades = 140%nat
    /\ Forall (fun blade =>
                 exists x0 h sway : R,
                   blade
                   = [BeginPath;
                      MoveTo x0 (H * 0.98);
                      QuadraticCurveTo (x0 + sway) (H * 0.98 - h * 0.6)
                        (x0 + sway * 1.6) (H * 0.98 - h);
                      Stroke]
                   /\ -20 <= x0 < W
                   /\ 10 <= h <= 50
                   /\ -8 <= sway <= 8)
         blades.
Proof.
  intros HW. unfold drawGrass. cbv zeta.
  rewrite flat_map_concat_map.
  eexists. split; [reflexivity|].
  split; [now rewrite length_map, length_seq|].
  apply Forall_forall. intros blade Hin.
  apply in_map_iff in Hin. destruct Hin as (i & <- & Hi).
  set (a := INR i / INR 140 * W + sin ((t + INR i) * 0.7) * 20).
  assert (Ha : -20 <= a).
  { unfold a. pose proof (SIN_bound ((t + INR i) * 0.7)) as [Hs _].
    assert (0 <= INR i / INR 140 * W).
    { apply Rmult_le_pos; [|lra].
      apply Rmult_le_pos; [apply pos_INR|].
      apply Rlt_le, Rinv_0_lt_compat. apply lt_0_INR. lia. }
    lra. }
  assert (Hx : -20 <= js_rem a W < W).
  { destruct (js_rem_range a W HW) as ([_ Hhi] & Hp & _).
    destruct (js_rem_towards_zero a W HW) as [Hn _].
    destruct (Rle_dec 0 a) as [H0|H0].
    - specialize (Hp H0). lra.
    - assert (H1 : a <= 0) by lra. specialize (Hn H1). lra. }
  pose proof (SIN_bound (INR i * 0.5 + t * 1.2)) as [Hh1 Hh2].
  pose proof (SIN_bound (t * 2 + INR i)) as [Hw1 Hw2].
  exists (js_rem a W), (30 + 20 * sin (INR i * 0.5 + t * 1.2)),
         (sin (t * 2 + INR i) * 8).
  split; [reflexivity|]. split; [exact Hx|]. split; lra.
Qed.

Lemma drawGrass_blades_witness :
  exists blades : list (list cmd),
    drawGrass 1280 720 0
    = [SetStrokeStyle (Css "#2a5f2a"); SetLineWidth 2] ++ List.concat blades
    /\ List.length blades = 140%nat
    /\ exists x0 h sway : R,
         nth 0 blades []
         = [BeginPath;
            MoveTo x0 (720 * 0.98);
            QuadraticCurveTo (x0 + sway) (720 * 0.98 - h * 0.6)
              (x0 + sway * 1.6) (720 * 0.98 - h);
            Stroke]
         /\ -20 <= x0 < 1280 /\ 10 <= h <= 50 /\ -8 <= sway <= 8.
Proof.
  assert (HW : 0 < 1280) by lra.
  destruct (drawGrass_blades 1280 720 0 HW) as (blades & E & L & F).
  exists blades. split; [exact E|]. split; [exact L|].
  rewrite Forall_forall in F. apply F.
  apply nth_In. rewrite L. lia.
Defined.

(* ================================================================== *)
(** * The chain of recording statuses *)

(** Without recorder errors, a session suspended at the wait goes with
    status [recording], one suspended at the stop with [processing]. *)
Lemma in_flight_status (es : list event) (i : nat) (s : Session) :
  forallb no_recorder_error es = true ->
  nth_error (Page.sessions (steps Page.init es)) i = Some s ->
  (at_await s = AwaitWait -> Page.recState (steps Page.init es) = recording)
  /\ (at_await s = AwaitStop
      -> Page.recState (steps Page.init es) = processing).
Proof.
  intros Hes En. destruct (sessions_shape es Hes) as (l & Hl & Hsh).
  assert (Hret : forall s1, In s1 l -> at_await s1 = Returned)
    by (now apply Forall_forall).
  assert (Hcase : In s l
                  \/ exists s0, Page.sessions (steps Page.init es) = l ++ [s0]
                                /\ s = s0).
  { destruct (Page.recState (steps Page.init es));
      try (left; rewrite Hsh in En; eapply nth_error_In; exact En);
      destruct Hsh as (s0 & Hss & _); rewrite Hss in En;
      apply nth_error_In in En; apply in_app_or in En;
      (destruct En as [En|[<-|[]]]; [now left|right; now exists s0]). }
  destruct Hcase as [Hin|(s0 & Hss & ->)].
  - apply Hret in Hin. split; intros E; congruence.
  - destruct (Page.recState (steps Page.init es));
      try (rewrite Hsh in Hss; exfalso;
           apply (f_equal (@List.length Session)) in Hss;
           rewrite length_app in Hss; cbn [List.length] in Hss; lia);
      destruct Hsh as (s1 & Hss1 & Ha1); rewrite Hss1 in Hss;
      apply app_inj_tail in Hss; destruct Hss as [_ ->];
      split; intros E; congruence.
Qed.

(** C6, amended. As long as no recorder has reported an error, a step of
    the capture controller either leaves the status as it is, or moves it
    one place along the chain idle, recording, processing, done (the
    button moves idle, done and error to recording; the end of the wait
    moves recording to processing; the stop of the recorder moves
    processing to done), or moves it to [error]: directly from idle, done
    or error when the button is pressed and capture is not available, and
    from any status when a recorder reports an error. *)
Theorem status_chain (es : list event) (e : event) :
  forallb no_recorder_error es = true ->
  Page.recState (step (steps Page.init es) e)
  = Page.recState (steps Page.init es)
  \/ (chain_next (Page.recState (steps Page.init es))
        (Page.recState (step (steps Page.init es) e)) = true
      /\ moves_to e (Page.recState (step (steps Page.init es) e)) = true)
  \/ (Page.recState (step (steps Page.init es) e) = error
      /\ (capture_refused (steps Page.init es) e
          \/ exists i m, e = RecorderError i m)).
Proof.
  intros Hes. set (p := steps Page.init es).
  destruct e as [b|i|i|i d|i m|v]; cbn [step].
  - destruct (button_disabled p) eqn:Hd; [now left|].
    assert (Hs : Page.recState p = idle \/ Page.recState p = done
                 \/ Page.recState p = error).
    { unfold button_disabled in Hd.
      destruct (Page.recState p); auto; discriminate. }
    unfold handleRecord.
    destruct (canvasMounted b) eqn:Hc; cbn [negb]; [|now left].
    destruct (hasCaptureStream b) eqn:Hcs; cbn [negb].
    + destruct (String.eqb (pickMimeType b mimeTypes) "") eqn:Hm.
      * right. right. split; [reflexivity|]. left. exists b.
        apply String.eqb_eq in Hm. repeat split; auto.
      * right. left.
        cbn [Page.recState Page.setRecState Page.setSessions].
        split; [|reflexivity].
        destruct Hs as [->|[->| ->]]; reflexivity.
    + right. right. split; [reflexivity|]. left. exists b.
      repeat split; auto.
  - unfold afterWait.
    destruct (nth_error (Page.sessions p) i) as [s|] eqn:En; [|now left].
    destruct (at_await s) eqn:Ea; try now left.
    destruct (in_flight_status es i s Hes En) as [Hw _].
    right. left. cbn [Page.recState Page.setRecState Page.setSessions].
    fold p in Hw. rewrite (Hw Ea). split; reflexivity.
  - unfold onstop.
    destruct (nth_error (Page.sessions p) i) as [s|] eqn:En; [|now left].
    destruct (at_await s) eqn:Ea; try now left.
    destruct (in_flight_status es i s Hes En) as [_ Hst].
    right. left.
    cbn [Page.recState Page.setRecState Page.setSessions Page.setVideoUrl].
    fold p in Hst. rewrite (Hst Ea). split; reflexivity.
  - left. apply ondataavailable_recState.
  - destruct (onerror_cases i m p) as [->|[Hs _]]; [now left|].
    right. right. split; [exact Hs|]. right. now exists i, m.
  - now left.
Qed.

Lemma status_chain_witness :
  Page.recState (step (steps Page.init [Click browser_full]) (WaitElapsed 0))
  = Page.recState (steps Page.init [Click browser_full])
  \/ (chain_next (Page.recState (steps Page.init [Click browser_full]))
        (Page.recState
           (step (steps Page.init [Click browser_full]) (WaitElapsed 0)))
      = true
      /\ moves_to (WaitElapsed 0)
           (Page.recState
              (step (steps Page.init [Click browser_full]) (WaitElapsed 0)))
         = true)
  \/ (Page.recState
        (step (steps Page.init [Click browser_full]) (WaitElapsed 0)) = error
      /\ (capture_refused (steps Page.init [Click browser_full])
            (WaitElapsed 0)
          \/ exists i m, WaitElapsed 0 = RecorderError i m)).
Proof.
  exact (status_chain [Click browser_full] (WaitElapsed 0) eq_refl).
Defined.

(** After a recorder error the invocation of [handleRecord] that started
    the recorder is still suspended at its wait: the end of the wait moves
    the status from [error] to [processing], and the stop of the recorder
    on to [done]. *)
Lemma suspended_session_survives_error
    (p : Page.t) (i : nat) (s : Session) (m : option string) :
  nth_error (Page.sessions p) i = Some s -> at_await s = AwaitWait ->
  Page.recState (step p (RecorderError i m)) = error
  /\ Page.recState (steps p [RecorderError i m; WaitElapsed i]) = processing
  /\ Page.recState
       (steps p [RecorderError i m; WaitElapsed i; RecorderStopped i])
     = done.
Proof.
  intros En Ea.
  pose proof (nth_error_length _ _ _ En) as Hlen.
  unfold steps. cbn [fold_left step]. unfold onerror at 1 2 3. rewrite En.
  split; [reflexivity|].
  set (p1 := Page.setRecState error _).
  assert (En1 : nth_error (Page.sessions p1) i = Some s) by exact En.
  unfold afterWait at 1 2. rewrite En1, Ea.
  split; [reflexivity|].
  unfold onstop.
  cbn [Page.sessions Page.setSessions Page.setRecState].
  rewrite nth_error_update_nth by exact Hlen.
  reflexivity.
Qed.

(* ================================================================== *)
(** * The duration stored *)

Lemma clamp_values :
  (forall r, 1 <= r <= 60 ->
     Math_max (Fin 1) (Math_min (Fin 60) (Fin r)) = Fin r)
  /\ (forall r, r <= 1 ->
        Math_max (Fin 1) (Math_min (Fin 60) (Fin r)) = Fin 1)
  /\ (forall r, 60 <= r ->
        Math_max (Fin 1) (Math_min (Fin 60) (Fin r)) = Fin 60)
  /\ Math_max (Fin 1) (Math_min (Fin 60) (Inf true)) = Fin 1
  /\ Math_max (Fin 1) (Math_min (Fin 60) (Inf false)) = Fin 60.
Proof.
  cbn [Math_max Math_min].
  split.
  { intros r Hr. f_equal. rewrite Rmin_right by lra. apply Rmax_right; lra. }
  split.
  { intros r Hr. f_equal. rewrite Rmin_right by lra. apply Rmax_left; lra. }
  split.
  { intros r Hr. f_equal. rewrite Rmin_left by lra. apply Rmax_right; lra. }
  split; [reflexivity|f_equal; apply Rmax_right; lra].
Qed.

(** C10, amended. As long as no number entered is [NaN], the stored
    duration is at all times a number of the closed interval [1, 60] and
    every recording session waits between one and sixty seconds.  What a
    change of the input stores is the number entered, clamped and not
    rounded: a number between 1 and 60 as it is (an integer only if the
    number entered is one), 1 for a number below 1 and for minus infinity,
    60 for a number above 60 and for plus infinity; and a session started
    next waits a thousand times the stored number of milliseconds. *)
Theorem duration_clamped (es : list event) :
  forallb numeric_input es = true ->
  in_1_60 (Page.durationSec (steps Page.init es))
  /\ Forall waits_1_to_60_s (Page.sessions (steps Page.init es))
  /\ (forall r, 1 <= r <= 60 ->
        Page.durationSec (onDurationChange (Fin r) (steps Page.init es))
        = Fin r)
  /\ (forall r, r <= 1 ->
        Page.durationSec (onDurationChange (Fin r) (steps Page.init es))
        = Fin 1)
  /\ (forall r, 60 <= r ->
        Page.durationSec (onDurationChange (Fin r) (steps Page.init es))
        = Fin 60)
  /\ Page.durationSec (onDurationChange (Inf true) (steps Page.init es))
     = Fin 1
  /\ Page.durationSec (onDurationChange (Inf false) (steps Page.init es))
     = Fin 60
  /\ (forall v, v <> NaN ->
        in_1_60 (Page.durationSec (onDurationChange v (steps Page.init es))))
  /\ (forall v, is_integer v ->
        is_integer (Page.durationSec (onDurationChange v (steps Page.init es))))
  /\ (forall r b, 1 <= r <= 60 ->
        button_disabled (steps Page.init es) = false ->
        Page.recState
          (steps Page.init (es ++ [DurationInput (Fin r); Click b]))
        = recording ->
        exists s,
          Page.sessions
            (steps Page.init (es ++ [DurationInput (Fin r); Click b]))
          = Page.sessions (steps Page.init es) ++ [s]
          /\ waitMs s = Fin (r * 1000)).
Proof.
  intros Hes.
  assert (Hinv : in_1_60 (Page.durationSec (steps Page.init es))
                 /\ Forall waits_1_to_60_s (Page.sessions (steps Page.init es))).
  { induction es as [|e es IH] using rev_ind.
    - split; [cbn; lra|constructor].
    - rewrite forallb_app in Hes. apply andb_prop in Hes.
      destruct Hes as [Hes He]. cbn [forallb] in He.
      rewrite andb_true_r in He.
      rewrite steps_snoc. apply step_duration_inv; [exact He|now apply IH]. }
  destruct Hinv as [Hd Hs].
  destruct clamp_values as (E1 & E2 & E3 & E4 & E5).
  split; [exact Hd|]. split; [exact Hs|].
  split; [exact E1|]. split; [exact E2|]. split; [exact E3|].
  split; [exact E4|]. split; [exact E5|].
  split.
  { intros v Hv.
    cbn [onDurationChange Page.durationSec Page.setDurationSec].
    now apply clamp_in_1_60. }
  split.
  { intros v Hv.
    cbn [onDurationChange Page.durationSec Page.setDurationSec].
    now apply clamp_integer. }
  intros r b Hr Hdis Hrec.
  rewrite steps_app in Hrec |- *. set (p := steps Page.init es) in *.
  unfold steps in Hrec |- *. cbn [fold_left step] in Hrec |- *.
  set (q := onDurationChange (Fin r) p) in *.
  assert (Hq : button_disabled q = false) by exact Hdis.
  rewrite Hq in Hrec |- *.
  assert (Hdq : Page.durationSec q = Fin r) by (apply E1; exact Hr).
  destruct (handleRecord_cases b q) as [[Hst Hss]|[[Hst Hss]|[Hst Hss]]].
  - exfalso. rewrite Hst in Hrec. unfold button_disabled in Hdis.
    change (Page.recState q) with (Page.recState p) in Hrec.
    rewrite Hrec in Hdis. discriminate.
  - rewrite Hst in Hrec. discriminate.
  - rewrite Hss. eexists. split; [reflexivity|].
    cbn [waitMs]. rewrite Hdq. reflexivity.
Qed.

Lemma duration_clamped_witness :
  in_1_60
    (Page.durationSec
       (steps Page.init [DurationInput (Fin 75); Click browser_full]))
  /\ Page.durationSec
       (onDurationChange (Fin 5.5)
          (steps Page.init [DurationInput (Fin 75); Click browser_full]))
     = Fin 5.5
  /\ Page.durationSec
       (onDurationChange (Fin 0)
          (steps Page.init [DurationInput (Fin 75); Click browser_full]))
     = Fin 1
  /\ Page.durationSec
       (onDurationChange (Fin 75)
          (steps Page.init [DurationInput (Fin 75); Click browser_full]))
     = Fin 60
  /\ in_1_60
       (Page.durationSec
          (onDurationChange (Inf false)
             (steps Page.init [DurationInput (Fin 75); Click browser_full])))
  /\ is_integer
       (Page.durationSec
          (onDurationChange (Fin 30)
             (steps Page.init [DurationInput (Fin 75); Click browser_full])))
  /\ exists s,
       Page.sessions (steps Page.init ([] ++ [DurationInput (Fin 5.5);
                                               Click browser_full]))
       = Page.sessions (steps Page.init []) ++ [s]
       /\ waitMs s = Fin (5.5 * 1000).
Proof.
  destruct (duration_clamped
              [DurationInput (Fin 75); Click browser_full] eq_refl)
    as (Hd & _ & H1 & H2 & H3 & _ & _ & Hr & Hi & _).
  destruct (duration_clamped [] eq_refl)
    as (_ & _ & _ & _ & _ & _ & _ & _ & _ & Hw).
  split; [exact Hd|].
  split; [apply H1; lra|]. split; [apply H2; lra|]. split; [apply H3; lra|].
  split; [apply Hr; discriminate|].
  split; [apply Hi; exists 30%Z; reflexivity|].
  apply (Hw 5.5 browser_full); [lra|reflexivity|reflexivity].
Defined.
